(** * QM9 data pipeline ([datasets/qm9.py]): a shallow embedding

    The functions of [datasets/qm9.py] that carry the invariants of the
    pipeline are embedded as Rocq functions:
    - [QM9Dataset.process]        (label table, record parser, edge sorting),
    - [QM9Dataset.apply_split]    (seeded three-way partition),
    - [QM9Dataset.__getitem__]    (projection of the target, in place),
    - [collate_fn]                (batching with index offsets),
    - [QM9GraphTransform]         (padding to static shapes),
    - [QM9Dataset.__init__]       (target lookup, cache, split, casts),
    - [QM9Dataset.read_uncharacterized_indices] (the excluded positions),
    - [QM9Dataset.__len__], the loop of [calc_stats], [top_n_nodes] and
      [top_n_edges].
    The downloads and the mean and deviation of [calc_stats] are left out.

    Python exceptions are values of [exn] carried by the [result] monad;
    NumPy arrays are lists (a 2-D array is a record of its column count and
    its rows); the dict [atom_types] is a [gmap], the set [skip_indices] a
    [gset]; [self.data] is an explicit store threaded through [__getitem__]. *)

From stdpp Require Import base option list gmap strings sorting.
From Stdlib Require Import ZArith QArith Lia.

Local Open Scope Z_scope.

(* ===================================================================== *)
(** ** Exceptions and the error monad *)

(** The built-in exception classes the module can raise, and the part of
    Python's class hierarchy above them. *)
Inductive exn := KeyError | IndexError | ValueError.

Inductive exn_class :=
  | cls_Exception | cls_LookupError | cls_KeyError | cls_IndexError | cls_ValueError.

Definition class_of (e : exn) : exn_class :=
  match e with
  | KeyError => cls_KeyError
  | IndexError => cls_IndexError
  | ValueError => cls_ValueError
  end.

Definition base_class (c : exn_class) : option exn_class :=
  match c with
  | cls_KeyError | cls_IndexError => Some cls_LookupError
  | cls_LookupError | cls_ValueError => Some cls_Exception
  | cls_Exception => None
  end.

Definition exn_class_eqb (c d : exn_class) : bool :=
  match c, d with
  | cls_Exception, cls_Exception | cls_LookupError, cls_LookupError
  | cls_KeyError, cls_KeyError | cls_IndexError, cls_IndexError
  | cls_ValueError, cls_ValueError => true
  | _, _ => false
  end.

(** [issubclass c d]: the hierarchy has depth three. *)
Fixpoint issubclass_fuel (n : nat) (c d : exn_class) : bool :=
  exn_class_eqb c d ||
  match n with
  | O => false
  | S n' => match base_class c with
            | Some b => issubclass_fuel n' b d
            | None => false
            end
  end.

Definition issubclass : exn_class → exn_class → bool := issubclass_fuel 3.

(** [isinstance(e, cls)], what an [except cls:] clause tests. *)
Definition isinstance (e : exn) (c : exn_class) : bool := issubclass (class_of e) c.

Inductive result (A : Type) : Type :=
  | Ok (a : A)
  | Raise (e : exn).
Arguments Ok {A} a.
Arguments Raise {A} e.

#[export] Instance result_ret : MRet result := λ A a, Ok a.
#[export] Instance result_bind : MBind result := λ A B f m,
  match m with
  | Ok a => f a
  | Raise e => Raise e
  end.

#[export] Instance result_fmap : FMap result := λ A B f m,
  match m with
  | Ok a => Ok (f a)
  | Raise e => Raise e
  end.

Definition is_Ok {A} (r : result A) : bool :=
  match r with Ok _ => true | Raise _ => false end.

(* ===================================================================== *)
(** ** Numbers *)

(** [np.float32] values.  The pipeline copies them, multiplies them and
    builds them from decimal literals; the class keeps exactly these
    operations, so that every statement holds for the rounding
    multiplication of IEEE binary32 as well as for an exact one. *)
Class Float32 (F : Type) := {
  f0 : F;                       (* 0.0 *)
  f1 : F;                       (* 1.0 *)
  fmul : F → F → F;             (* a * b *)
  f32 : Q → F;                  (* np.float32(literal) *)
  f32_of_bool : bool → F;       (* astype(np.float32) of a bool *)
  f1_ne_f0 : f1 ≠ f0;
}.

(** Exact rationals as a stand-in for [np.float32] in examples. *)
#[export] Instance Float32_Q : Float32 Q := {|
  f0 := 0%Q;
  f1 := 1%Q;
  fmul := Qmult;
  f32 := λ q, q;
  f32_of_bool := λ b, if b then 1%Q else 0%Q;
  f1_ne_f0 := ltac:(discriminate);
|}.

(** A signed 32-bit integer ([jnp.int32], [np.int32]) is a [Z]; a cast or
    an addition on that type wraps around. *)
Definition wrap32 (z : Z) : Z := (z + 2 ^ 31) `mod` 2 ^ 32 - 2 ^ 31.

Definition in_int32 (z : Z) : Prop := - 2 ^ 31 ≤ z < 2 ^ 31.

(** A 2-D array of shape [(length rows, ncols)]. *)
Record arr2 (A : Type) := Arr2 { ncols : nat; rows : list (list A) }.
Arguments Arr2 {A} ncols rows.
Arguments ncols {A} _.
Arguments rows {A} _.

Definition nrows {A} (a : arr2 A) : nat := length (rows a).

(* ===================================================================== *)
(** ** Class constants of [QM9Dataset] *)

Definition HAR2EV : Q := 27211386246 # 1000000000.
Definition KCALMOL2EV : Q := 4336414 # 100000000.
Definition TOTAL_SIZE : N := 130831.
Definition TRAIN_SIZE : N := 110000.
Definition VAL_SIZE : N := 10000.
Definition TEST_SIZE : N := 10831.

Definition TARGETS : list string :=
  ["mu"; "alpha"; "homo"; "lumo"; "gap"; "r2"; "zpve"; "U0"; "U"; "H"; "G";
   "Cv"; "U0_atom"; "U_atom"; "H_atom"; "G_atom"; "A"; "B"; "C"]%string.

(* ===================================================================== *)
(** ** [process], first part: the label table *)

Section Targets.
Context {F : Type} `{Float32 F}.

(** [np.array([1., 1., HAR2EV, ...], dtype=np.float32)] *)
Definition conversion_factors : list F :=
  f32 <$> [1; 1; HAR2EV; HAR2EV; HAR2EV; 1; HAR2EV; HAR2EV; HAR2EV;
           HAR2EV; HAR2EV; 1; KCALMOL2EV; KCALMOL2EV; KCALMOL2EV;
           KCALMOL2EV; 1; 1; 1]%Q.

(** One row of [np.concatenate([raw[:, 3:], raw[:, :3]], axis=1)]. *)
Definition rearrange_row (row : list F) : list F := drop 3 row ++ take 3 row.

(** One row of [a * v] for a 2-D [a] and a 1-D [v], with NumPy's
    broadcasting of the last axis: equal lengths multiply element-wise,
    a length of one is stretched, anything else is a [ValueError]. *)
Definition np_mul_row (row v : list F) : result (list F) :=
  if decide (length row = length v) then Ok (zip_with fmul row v)
  else match row, v with
       | [a], _ => Ok (fmul a <$> v)
       | _, [b] => Ok ((λ a, fmul a b) <$> row)
       | _, _ => Raise ValueError
       end.

Definition targets_row (row : list F) : result (list F) :=
  np_mul_row (rearrange_row row) conversion_factors.

(** [targets = rearranged_targets * conversion_factors].  The table is
    the list of its rows; the shapes, which NumPy checks once for the
    whole table, are checked on every row. *)
Definition process_targets (raw_targets : list (list F)) : result (list (list F)) :=
  mapM targets_row raw_targets.
End Targets.

(* ===================================================================== *)
(** ** NumPy and Python primitives *)

(** [l[i]] for a non-negative [i]: [IndexError] out of range. *)
Definition list_get {A} (l : list A) (i : nat) : result A :=
  match l !! i with
  | Some a => Ok a
  | None => Raise IndexError
  end.

(** [d[k]] on a dict: [KeyError] when the key is absent. *)
Definition dict_get `{Countable K} {V} (d : gmap K V) (k : K) : result V :=
  match d !! k with
  | Some v => Ok v
  | None => Raise KeyError
  end.

(** [a[idx]] for an integer index array [idx] (fancy indexing along one
    axis), and [[l[i] for i in idx]]. *)
Definition np_take {A} (l : list A) (idx : list nat) : result (list A) :=
  mapM (list_get l) idx.

(** [l[lo:hi]] for [0 <= lo <= hi]: the bounds are clipped to the list. *)
Definition py_slice {A} (lo hi : nat) (l : list A) : list A :=
  take (hi - lo) (drop lo l).

(** Normalisation of a Python list index: negative indexes count from the
    end, anything outside [[-len, len)] is an [IndexError]. *)
Definition py_index (len : nat) (i : Z) : result nat :=
  if decide (0 ≤ i < Z.of_nat len) then Ok (Z.to_nat i)
  else if decide (- Z.of_nat len ≤ i < 0) then Ok (Z.to_nat (i + Z.of_nat len))
  else Raise IndexError.

(** [l.index(s)]: position of the first occurrence, [ValueError] if none. *)
Fixpoint list_index (l : list string) (s : string) : result nat :=
  match l with
  | [] => Raise ValueError
  | t :: l' => if decide (t = s) then Ok O else S <$> list_index l' s
  end.

(** Lexicographic order on a pair of keys, primary key first. *)
Definition lex_le (p q : Z * Z) : bool :=
  (p.1 <? q.1) || ((p.1 =? q.1) && (p.2 <=? q.2)).

(** Stable insertion of the index [i] in a list of larger indexes that is
    sorted by [key]: [i] goes before the first index whose key is not
    smaller. *)
Fixpoint insert_idx (key : nat → Z * Z) (i : nat) (l : list nat) : list nat :=
  match l with
  | [] => [i]
  | j :: l' => if lex_le (key i) (key j) then i :: l else j :: insert_idx key i l'
  end.

(** [np.lexsort((a, b))]: the indexes [0 .. len-1] in a stable order by
    [b] (the last key is the primary one), ties broken by [a]. *)
Definition lexsort (a b : list Z) : list nat :=
  let key i := (b !!! i, a !!! i) in
  foldr (insert_idx key) [] (seq 0 (length b)).

(** [np.concatenate(arrays, axis=0)] on 2-D arrays: at least one array,
    all of one column count. *)
Definition np_concatenate0 {A} (l : list (arr2 A)) : result (arr2 A) :=
  match l with
  | [] => Raise ValueError
  | a :: l' =>
      if forallb (λ b, Nat.eqb (ncols b) (ncols a)) l'
      then Ok (Arr2 (ncols a) (concat (rows <$> l)))
      else Raise ValueError
  end.

(** [np.stack(vectors, axis=0)] on 1-D arrays: at least one, all of one
    length. *)
Definition np_stack {A} (l : list (list A)) : result (arr2 A) :=
  match l with
  | [] => Raise ValueError
  | v :: l' =>
      if forallb (λ w, Nat.eqb (length w) (length v)) l'
      then Ok (Arr2 (length v) l)
      else Raise ValueError
  end.

(** [np.concatenate(arrays, axis=1)] on arrays of shape [(2, E_i)], each
    held as the list of its columns: at least one array. *)
Definition np_concatenate1 {A} (l : list (list A)) : result (list A) :=
  match l with
  | [] => Raise ValueError
  | _ => Ok (concat l)
  end.

(* ===================================================================== *)
(** ** Molecule records (what [Chem.SDMolSupplier] yields) *)

(** [rdchem.BondType]; the members other than the four the code tests
    are one constructor. *)
Inductive BondType := SINGLE | DOUBLE | TRIPLE | AROMATIC | OTHER_BOND.

Record Bond := {
  GetBeginAtomIdx : nat;
  GetEndAtomIdx : nat;
  GetBondType : BondType;
}.

Record Atom (F : Type) := {
  GetAtomicNum : Z;
  GetAtomPosition : F * F * F;     (* mol.GetConformer().GetAtomPosition(j) *)
}.
Arguments GetAtomicNum {F} _.
Arguments GetAtomPosition {F} _.

Record Mol (F : Type) := {
  GetAtoms : list (Atom F);        (* GetAtomWithIdx(j), j < GetNumAtoms() *)
  GetBonds : list Bond;
  GetProp_Name : string;           (* mol.GetProp('_Name') *)
  MolToSmiles : string;            (* Chem.MolToSmiles(mol) *)
}.
Arguments GetAtoms {F} _.
Arguments GetBonds {F} _.
Arguments GetProp_Name {F} _.
Arguments MolToSmiles {F} _.

(** One entry of [data_list]: the dict built at the end of the loop body.
    [S] is the scalar type of the one-hot arrays: [bool] as [process]
    builds them, [np.float32] after [dataset_to_pytorch].  [edge_index]
    has shape [(2, E)] and is held as the list of its columns. *)
Record Item (F S : Type) := {
  pos : arr2 F;
  x : arr2 S;
  y : list F;
  edge_index : list (Z * Z);
  edge_attr : arr2 S;
  name : string;
  smiles : string;
  idx : nat;
}.
Arguments pos {F S} _.
Arguments x {F S} _.
Arguments y {F S} _.
Arguments edge_index {F S} _.
Arguments edge_attr {F S} _.
Arguments name {F S} _.
Arguments smiles {F S} _.
Arguments idx {F S} _.

(** [atom_types = {1: 0, 6: 1, 7: 2, 8: 3, 9: 4}] *)
Definition atom_types : gmap Z nat :=
  <[1 := 0%nat]> (<[6 := 1%nat]> (<[7 := 2%nat]> (<[8 := 3%nat]> (<[9 := 4%nat]> ∅)))).

(** The list [bond_type] after the [if]/[elif] chain. *)
Definition bond_type (t : BondType) : list bool :=
  let zeros := replicate 4 false in
  match t with
  | SINGLE => <[0%nat := true]> zeros
  | DOUBLE => <[1%nat := true]> zeros
  | TRIPLE => <[2%nat := true]> zeros
  | AROMATIC => <[3%nat := true]> zeros
  | OTHER_BOND => zeros
  end.

(** [edge_indices] and [edge_attrs] when the loop over the bonds ends. *)
Definition edge_indices (bonds : list Bond) : list (Z * Z) :=
  bonds ≫= λ b,
    let start := Z.of_nat (GetBeginAtomIdx b) in
    let end_ := Z.of_nat (GetEndAtomIdx b) in
    [(start, end_); (end_, start)].

Definition edge_attrs (bonds : list Bond) : list (list bool) :=
  bonds ≫= λ b, [bond_type (GetBondType b); bond_type (GetBondType b)].

(** The three lines that sort the edges: [np.lexsort] on the rows of
    [edge_index] (row 1, the second atom of every pair, is the primary
    key), then [edge_index[:, sort_indices]] and [edge_attr[sort_indices]].
    [np.array(edge_indices, dtype=int).T] has shape [(2, E)] when there is
    a bond and shape [(0,)] when there is none; in that case
    [edge_index[0, :]] raises [IndexError]. *)
Definition sort_edges {S} (edge_index : list (Z * Z)) (edge_attr : list S)
    : result (list (Z * Z) * list S) :=
  _ ← (if decide (edge_index = []) then Raise IndexError else Ok ());
  let sort_indices := lexsort (edge_index.*1) (edge_index.*2) in
  edge_index' ← np_take edge_index sort_indices;
  edge_attr' ← np_take edge_attr sort_indices;
  Ok (edge_index', edge_attr').

Section Process.
Context {F : Type} `{Float32 F}.

(** Row [j] of [x]: a row of zeros with [x[j, atom_types[Z]] = 1]. *)
Definition atom_row (a : Atom F) : result (list bool) :=
  k ← dict_get atom_types (GetAtomicNum a);
  Ok (<[k := true]> (replicate (size atom_types) false)).

Definition pos_row (a : Atom F) : list F :=
  let '(px, py, pz) := GetAtomPosition a in [px; py; pz].

(** The body of the loop of [process] for a record that is not skipped. *)
Definition process_mol (targets : list (list F)) (i : nat) (mol : Mol F)
    : result (Item F bool) :=
  let pos := Arr2 3 (pos_row <$> GetAtoms mol) in
  x_rows ← mapM atom_row (GetAtoms mol);
  let x := Arr2 (size atom_types) x_rows in
  y ← list_get targets i;
  '(edge_index, edge_attr) ←
    sort_edges (edge_indices (GetBonds mol)) (edge_attrs (GetBonds mol));
  Ok {| pos := pos; x := x; y := y; edge_index := edge_index;
        edge_attr := Arr2 4 edge_attr; name := GetProp_Name mol;
        smiles := MolToSmiles mol; idx := i |}.

(** [for i, mol in enumerate(suppl)], from position [i] on. *)
Fixpoint process_loop (targets : list (list F)) (skip_indices : gset Z)
    (i : nat) (suppl : list (option (Mol F))) : result (list (Item F bool)) :=
  match suppl with
  | [] => Ok []
  | mol :: suppl' =>
      match mol with
      | None => process_loop targets skip_indices (S i) suppl'
      | Some m =>
          if decide (Z.of_nat i ∈ skip_indices)
          then process_loop targets skip_indices (S i) suppl'
          else
            item ← process_mol targets i m;
            data_list ← process_loop targets skip_indices (S i) suppl';
            Ok (item :: data_list)
      end
  end.

(** [process]: [raw_targets] is [df.iloc[:, 1:].values], [skip_indices]
    what [read_uncharacterized_indices] returns, [suppl] the record
    stream ([None] for a record RDKit cannot parse). *)
Definition process (raw_targets : list (list F)) (skip_indices : gset Z)
    (suppl : list (option (Mol F))) : result (list (Item F bool)) :=
  targets ← process_targets raw_targets;
  process_loop targets skip_indices 0 suppl.

(** [dataset_to_pytorch]: the casts of the five arrays of every entry. *)
Definition astype_float32 (a : arr2 bool) : arr2 F :=
  Arr2 (ncols a) (map (map (f32_of_bool (F:=F))) (rows a)).

Definition Item_float32 (d : Item F bool) : Item F F :=
  {| pos := pos d; x := astype_float32 (x d); y := y d;
     edge_index := edge_index d; edge_attr := astype_float32 (edge_attr d);
     name := name d; smiles := smiles d; idx := idx d |}.

Definition dataset_to_pytorch (data : list (Item F bool)) : list (Item F F) :=
  Item_float32 <$> data.
End Process.

(* ===================================================================== *)
(** ** [apply_split] *)

Section Split.
(** [np.random.RandomState(seed=s).permutation(arr)]: the generator is
    built from the seed inside [apply_split] at every call, so the
    shuffled array is a function of the seed and of the array.  The
    Mersenne Twister itself is NumPy's and stays a parameter. *)
Variable RandomState_permutation : Z → list nat → list nat.

(** The three slices [perm[:tr]], [perm[tr:tr + va]], [perm[tr + va:]]
    of the permutation of [np.arange(total)]. *)
Definition split_blocks (seed : Z) (total tr va : nat)
    : list nat * list nat * list nat :=
  let perm := RandomState_permutation seed (seq 0 total) in
  (take tr perm, py_slice tr (tr + va) perm, drop (tr + va) perm).

Definition apply_split {A} (split : string) (data : list A) : result (list A) :=
  let '(train_idx, val_idx, test_idx) :=
    split_blocks 42 (N.to_nat TOTAL_SIZE) (N.to_nat TRAIN_SIZE) (N.to_nat VAL_SIZE) in
  if decide (split = "train"%string) then np_take data train_idx
  else if decide (split = "val"%string) then np_take data val_idx
  else if decide (split = "test"%string) then np_take data test_idx
  else Raise ValueError.
End Split.

(* ===================================================================== *)
(** ** The dataset object and [__getitem__] *)

(** The two attributes of [self] that [__getitem__] reads.  [data] is the
    store of the record dicts: [__getitem__] returns a reference to the
    stored dict, so an assignment to [item['y']] is an update of the
    store at that position. *)
Record QM9Dataset (F : Type) := {
  target_index : option nat;
  data : list (Item F F);
}.
Arguments target_index {F} _.
Arguments data {F} _.

(** [self.target_index = None if target is None else self.TARGETS.index(target)] *)
Definition init_target_index (target : option string) : result (option nat) :=
  match target with
  | None => Ok None
  | Some t => Some <$> list_index TARGETS t
  end.

Definition set_y {F S} (item : Item F S) (v : list F) : Item F S :=
  {| pos := pos item; x := x item; y := v; edge_index := edge_index item;
     edge_attr := edge_attr item; name := name item; smiles := smiles item;
     idx := idx item |}.

(** [__getitem__(self, idx)]: the dict returned (as it reads on return)
    and the dataset after the call. *)
Definition __getitem__ {F} (self : QM9Dataset F) (i : Z)
    : result (Item F F * QM9Dataset F) :=
  loc ← py_index (length (data self)) i;
  item ← list_get (data self) loc;
  match target_index self with
  | Some ti =>
      if decide (1 < length (y item))%nat then
        let item' := set_y item (py_slice ti (ti + 1) (y item)) in
        Ok (item', {| target_index := target_index self;
                      data := <[loc := item']> (data self) |})
      else Ok (item, self)
  | None => Ok (item, self)
  end.

(* ===================================================================== *)
(** ** [collate_fn] *)

Record Batch (F : Type) := {
  b_pos : arr2 F;
  b_x : arr2 F;
  b_y : arr2 F;
  b_batch : list Z;
  b_ptr : list Z;
  b_edge_index : list (Z * Z);
  b_edge_attr : arr2 F;
}.
Arguments b_pos {F} _.
Arguments b_x {F} _.
Arguments b_y {F} _.
Arguments b_batch {F} _.
Arguments b_ptr {F} _.
Arguments b_edge_index {F} _.
Arguments b_edge_attr {F} _.

(** The local variables of [collate_fn] during its loop. *)
Record collate_state (F : Type) := {
  c_pos : list (arr2 F);
  c_x : list (arr2 F);
  c_y : list (list F);
  c_batch_idx : list Z;
  c_edge_index_batch : list (list (Z * Z));
  c_edge_attr_batch : list (arr2 F);
  c_ptr : list Z;
  c_cum_nodes : Z;
}.
Arguments c_pos {F} _.
Arguments c_x {F} _.
Arguments c_y {F} _.
Arguments c_batch_idx {F} _.
Arguments c_edge_index_batch {F} _.
Arguments c_edge_attr_batch {F} _.
Arguments c_ptr {F} _.
Arguments c_cum_nodes {F} _.

(** The state before the loop: empty lists, [cum_nodes = 0], [ptr = [0]]. *)
Definition collate_init {F} : collate_state F :=
  {| c_pos := []; c_x := []; c_y := []; c_batch_idx := [];
     c_edge_index_batch := []; c_edge_attr_batch := []; c_ptr := [0];
     c_cum_nodes := 0 |}.

(** [item['edge_index'] + cum_nodes] *)
Definition offset_edges (cum : Z) (e : list (Z * Z)) : list (Z * Z) :=
  (λ uv, (uv.1 + cum, uv.2 + cum)) <$> e.

(** One pass through the body of the loop. *)
Definition collate_step {F} (st : collate_state F) (i : nat) (item : Item F F)
    : collate_state F :=
  let num_nodes := nrows (x item) in
  let cum_nodes := c_cum_nodes st + Z.of_nat num_nodes in
  {| c_pos := c_pos st ++ [pos item];
     c_x := c_x st ++ [x item];
     c_y := c_y st ++ [y item];
     c_batch_idx := c_batch_idx st ++ replicate num_nodes (Z.of_nat i);
     c_edge_index_batch :=
       c_edge_index_batch st ++ [offset_edges (c_cum_nodes st) (edge_index item)];
     c_edge_attr_batch := c_edge_attr_batch st ++ [edge_attr item];
     c_ptr := c_ptr st ++ [cum_nodes];
     c_cum_nodes := cum_nodes |}.

(** [for i, item in enumerate(batch)], from position [i] on. *)
Fixpoint collate_loop {F} (st : collate_state F) (i : nat) (batch : list (Item F F))
    : collate_state F :=
  match batch with
  | [] => st
  | item :: batch' => collate_loop (collate_step st i item) (S i) batch'
  end.

(** [collate_fn(batch)].  [batch_idx] and [ptr] are stored as int32. *)
Definition collate_fn {F} (batch : list (Item F F)) : result (Batch F) :=
  let st := collate_loop collate_init 0 batch in
  pos ← np_concatenate0 (c_pos st);
  x ← np_concatenate0 (c_x st);
  y ← np_stack (c_y st);
  let batch_idx := wrap32 <$> c_batch_idx st in
  let ptr := wrap32 <$> c_ptr st in
  edge_index ← np_concatenate1 (c_edge_index_batch st);
  edge_attr ← np_concatenate0 (c_edge_attr_batch st);
  Ok {| b_pos := pos; b_x := x; b_y := y; b_batch := batch_idx; b_ptr := ptr;
        b_edge_index := edge_index; b_edge_attr := edge_attr |}.

(* ===================================================================== *)
(** ** [QM9GraphTransform] *)

Record PaddedGraph (F : Type) := {
  g_pos : arr2 F;
  g_x : arr2 F;
  g_edge_index : list (Z * Z);
  g_edge_attr : arr2 F;
  g_graph_index : list Z;
  g_y : list F;
  g_padding_mask : list F;
}.
Arguments g_pos {F} _.
Arguments g_x {F} _.
Arguments g_edge_index {F} _.
Arguments g_edge_attr {F} _.
Arguments g_graph_index {F} _.
Arguments g_y {F} _.
Arguments g_padding_mask {F} _.

(** [int(0.8 * m - n + 1)] for integers [m] and [n]: [int] truncates
    towards zero.  The exact value [(4 m - 5 n + 5) / 5] is an integer or
    at least 0.2 away from one; in the first case the binary64 product
    [0.8 * m] and the two operations after it are exact, in the second
    their rounding error is far below 0.2, so that the truncated quotient
    is what the float expression gives for every size below [2 ^ 47]. *)
Definition int_pad (m n : Z) : Z := (4 * m - 5 * n + 5) `quot` 5.

(** [int(0.8 * m) + 1], the row count the padding aims at. *)
Definition reserved_size (m : Z) : Z := (4 * m) `quot` 5 + 1.

(** [jnp.pad(a, ((0, w), (0, 0)))] with the default constant [z]: [w]
    rows of [z] after the last row; a negative width is rejected
    ([ValueError: index can't contain negative values]). *)
Definition jnp_pad_rows {A} (w : Z) (z : A) (a : arr2 A) : result (arr2 A) :=
  if decide (w < 0) then Raise ValueError
  else Ok (Arr2 (ncols a) (rows a ++ replicate (Z.to_nat w) (replicate (ncols a) z))).

(** [jnp.pad(e, ((0, 0), (0, w)), constant_values=c)] on an array of shape
    [(2, E)] held as the list of its columns. *)
Definition jnp_pad_cols (w : Z) (c : Z) (e : list (Z * Z)) : result (list (Z * Z)) :=
  if decide (w < 0) then Raise ValueError
  else Ok (e ++ replicate (Z.to_nat w) (c, c)).

(** [a.max()]: a reduction without identity, [ValueError] on an empty
    array. *)
Definition jnp_max (l : list Z) : result Z :=
  match l with
  | [] => Raise ValueError
  | a :: l' => Ok (foldr Z.max a l')
  end.

(** [a[-1]] on a 1-D array: [IndexError] on an empty one. *)
Definition jnp_last (l : list Z) : result Z :=
  match last l with
  | Some a => Ok a
  | None => Raise IndexError
  end.

(** [jnp.array(e, dtype=jnp.int32)] *)
Definition as_int32 (e : list (Z * Z)) : list (Z * Z) :=
  (λ uv, (wrap32 uv.1, wrap32 uv.2)) <$> e.

Section Transform.
Context {F : Type} `{Float32 F}.

(** [_qm9_transform(data)] in the closure of
    [QM9GraphTransform(max_batch_nodes, max_batch_edges)]. *)
Definition _qm9_transform (max_batch_nodes max_batch_edges : Z) (data : Batch F)
    : result (PaddedGraph F) :=
  let edge_index := as_int32 (b_edge_index data) in
  let graph_index := wrap32 <$> b_batch data in
  let n_nodes := Z.of_nat (nrows (b_x data)) in
  let n_edges := Z.of_nat (length edge_index) in
  let n_node_pad := int_pad max_batch_nodes n_nodes in
  let n_edge_pad := int_pad max_batch_edges n_edges in
  pos ← jnp_pad_rows n_node_pad f0 (b_pos data);
  x ← jnp_pad_rows n_node_pad f0 (b_x data);
  m ← jnp_max (edge_index.*1 ++ edge_index.*2);
  edge_index ← jnp_pad_cols n_edge_pad (wrap32 (m + 1)) edge_index;
  edge_attr ← jnp_pad_rows n_edge_pad f0 (b_edge_attr data);
  g ← jnp_last graph_index;
  let graph_index :=
    graph_index ++ replicate (Z.to_nat n_node_pad) (wrap32 (g + 1)) in
  let padding_mask := ((λ _, f1) <$> concat (rows (b_y data))) ++ [f0] in
  let target := concat (rows (b_y data)) ++ [f0] in
  Ok {| g_pos := pos; g_x := x; g_edge_index := edge_index;
        g_edge_attr := edge_attr; g_graph_index := graph_index;
        g_y := target; g_padding_mask := padding_mask |}.
End Transform.

(* ===================================================================== *)
(** ** [__len__], iteration, [calc_stats], [top_n_nodes], [top_n_edges] *)

(** [__len__(self)] *)
Definition __len__ {F} (self : QM9Dataset F) : nat := length (data self).

(** [a.item()]: the only element of an array of size one, [ValueError]
    for any other size. *)
Definition np_item {A} (v : list A) : result A :=
  match v with
  | [a] => Ok a
  | _ => Raise ValueError
  end.

(** [ys] in [calc_stats]: [[data["y"].item() for data in self]].  The
    class has no [__iter__], so the loop calls [self[0]], [self[1]], ...
    and ends at the first [IndexError]; every call may update the store.
    The result is the list and the dataset the loop leaves; [fuel] bounds
    the number of calls ([None]: not enough). *)
Fixpoint calc_stats_ys {F} (fuel : nat) (self : QM9Dataset F) (i : nat)
    : option (result (list F * QM9Dataset F)) :=
  match fuel with
  | O => None
  | S fuel' =>
      match __getitem__ self (Z.of_nat i) with
      | Raise IndexError => Some (Ok ([], self))
      | Raise e => Some (Raise e)
      | Ok (item, self') =>
          match np_item (y item) with
          | Raise e => Some (Raise e)
          | Ok v =>
              match calc_stats_ys fuel' self' (S i) with
              | Some (Ok (ys, self'')) => Some (Ok (v :: ys, self''))
              | other => other
              end
          end
      end
  end.

(** [torch.topk(torch.tensor(l), k)[0]]: the [k] largest values, largest
    first.  [None] stands for the [RuntimeError] of [torch.topk] when [k]
    is negative or larger than the tensor. *)
Definition torch_topk_values (k : Z) (l : list Z) : option (list Z) :=
  if decide (0 ≤ k ≤ Z.of_nat (length l))
  then Some (take (Z.to_nat k) (merge_sort Z.ge l))
  else None.

(** [top_n_nodes(self, n)] and [top_n_edges(self, n)] *)
Definition top_n_nodes {F} (self : QM9Dataset F) (n : Z) : option (list Z) :=
  torch_topk_values n ((λ a, Z.of_nat (nrows (pos a))) <$> data self).

Definition top_n_edges {F} (self : QM9Dataset F) (n : Z) : option (list Z) :=
  torch_topk_values n ((λ a, Z.of_nat (length (edge_index a))) <$> data self).

(* ===================================================================== *)
(** ** [read_uncharacterized_indices] *)

(** [s.split(c)] for a one-character separator: one piece more than there
    are separators. *)
Fixpoint str_split (c : Ascii.ascii) (s : string) : list string :=
  match s with
  | EmptyString => [EmptyString]
  | String a s' =>
      if decide (a = c) then EmptyString :: str_split c s'
      else match str_split c s' with
           | piece :: pieces => String a piece :: pieces
           | [] => [String a EmptyString]
           end
  end.

(** The line feed, ['\n']. *)
Definition newline : Ascii.ascii := Ascii.ascii_of_nat 10.

(** [l[9:-2]]: from position 9 up to, not including, the last two. *)
Definition slice_9_minus_2 {A} (l : list A) : list A :=
  py_slice 9 (length l - 2) l.

Section Uncharacterized.
(** [x.split()] (pieces between runs of whitespace) and [int(s)] are
    Python's; they stay parameters. *)
Variable str_split_whitespace : string → list string.
Variable py_int : string → result Z.

(** One element of the comprehension: [int(x.split()[0]) - 1]. *)
Definition uncharacterized_index (x : string) : result Z :=
  token ← list_get (str_split_whitespace x) 0;
  n ← py_int token;
  Ok (n - 1).

(** [read_uncharacterized_indices]: [text] is what [f.read()] returns. *)
Definition read_uncharacterized_indices (text : string) : result (gset Z) :=
  skip ← mapM uncharacterized_index (slice_9_minus_2 (str_split newline text));
  Ok (list_to_set skip).
End Uncharacterized.

(* ===================================================================== *)
(** ** [__init__] *)

Section Init.
Context {F : Type} `{Float32 F}.
Variable RandomState_permutation : Z → list nat → list nat.

(** [__init__] once the files are on disk.  [processed_file] is the
    content of [processed_qm9_data.pkl] ([None]: no such file), taken to
    hold exactly what [pickle.dump] was given; [raw_targets],
    [skip_indices] and [suppl] are what [process] reads.  The result is
    the content of the file afterwards and the outcome of the
    constructor.  A split that is [None] or empty is not applied. *)
Definition __init__ (processed_file : option (list (Item F bool)))
    (raw_targets : list (list F)) (skip_indices : gset Z)
    (suppl : list (option (Mol F))) (target split : option string)
    : option (list (Item F bool)) * result (QM9Dataset F) :=
  match init_target_index target with
  | Raise e => (processed_file, Raise e)
  | Ok ti =>
      let loaded :=
        match processed_file with
        | Some d => Ok d
        | None => process raw_targets skip_indices suppl
        end in
      match loaded with
      | Raise e => (processed_file, Raise e)
      | Ok d =>
          (Some d,
           d' ← match split with
                | None | Some EmptyString => Ok d
                | Some s => apply_split RandomState_permutation s d
                end;
           Ok {| target_index := ti; data := dataset_to_pytorch d' |})
      end
  end.
End Init.

(* ===================================================================== *)
(** ** Vocabulary of the statements *)

(** [e1] does not come after [e2] when pairs are ordered by their second
    component (the destination atom) and then by their first (the source
    atom). *)
Definition dest_src_le (e1 e2 : Z * Z) : Prop :=
  e1.2 < e2.2 ∨ (e1.2 = e2.2 ∧ e1.1 ≤ e2.1).

(** The pair with source and destination exchanged. *)
Definition reversed (e : Z * Z) : Z * Z := (e.2, e.1).

(** An atomic number that [atom_types] does not hold. *)
Definition outside_vocabulary (z : Z) : Prop := atom_types !! z = None.

Definition sum_Z (l : list Z) : Z := foldr Z.add 0 l.

(** [[0, n0, n0 + n1, ..., n0 + ... + n_{B-1}]] *)
Definition cumulative_sums (n : list Z) : list Z :=
  (λ k, sum_Z (take k n)) <$> seq 0 (S (length n)).

(** The atom counts [n_i] of the molecules of a batch. *)
Definition atom_counts {F S} (batch : list (Item F S)) : list Z :=
  (λ item, Z.of_nat (nrows (x item))) <$> batch.

(** The shape of a MoleculeGraph: coordinates in three columns, one-hot
    atom rows in five, one-hot bond rows in four, and every edge between
    two atoms of the molecule. *)
Definition MoleculeGraph {F S} (item : Item F S) : Prop :=
  ncols (pos item) = 3%nat ∧ ncols (x item) = 5%nat ∧
  ncols (edge_attr item) = 4%nat ∧
  ∀ e, e ∈ edge_index item →
    0 ≤ e.1 < Z.of_nat (nrows (x item)) ∧ 0 ≤ e.2 < Z.of_nat (nrows (x item)).

(** The positions of the record stream that [process] keeps: the record
    is parsable and its position is not excluded. *)
Definition kept_positions {F} (skip : gset Z) (suppl : list (option (Mol F)))
    : list nat :=
  (filter (λ p, is_Some p.2 ∧ Z.of_nat p.1 ∉ skip)
     (zip (seq 0 (length suppl)) suppl)).*1.

(** A row with [true] in column [k] and nowhere else. *)
Definition one_hot_at (k : nat) (row : list bool) : Prop :=
  ∀ c, row !! c = Some true ↔ c = k.

(** A record as [__getitem__] leaves it: with target [k] selected, a
    target vector of more than one entry is cut to [y[k:k+1]]. *)
Definition projected {F S} (ti : option nat) (item : Item F S) : Item F S :=
  match ti with
  | Some k => if decide (1 < length (y item))%nat
              then set_y item (py_slice k (k + 1) (y item)) else item
  | None => item
  end.

(** ["\n".join(lines)] *)
Fixpoint join_lines (lines : list string) : string :=
  match lines with
  | [] => EmptyString
  | [l] => l
  | l :: rest => (l ++ String newline (join_lines rest))%string
  end.

(** The string holds the character [c]. *)
Fixpoint has_char (c : Ascii.ascii) (s : string) : bool :=
  match s with
  | EmptyString => false
  | String a s' => bool_decide (a = c) || has_char c s'
  end.

(** The bonds of the record join atoms of the record. *)
Definition bonds_in_range {F} (mol : Mol F) : Prop :=
  ∀ b, b ∈ GetBonds mol →
    (GetBeginAtomIdx b < length (GetAtoms mol))%nat ∧
    (GetEndAtomIdx b < length (GetAtoms mol))%nat.

(* ===================================================================== *)
(** ** Sample inputs *)

Definition sample_atom (z : Z) : Atom Q :=
  {| GetAtomicNum := z; GetAtomPosition := (0%Q, 0%Q, 0%Q) |}.

(** Three atoms C, C, O with a single bond 0-1 and a double bond 1-2. *)
Definition sample_mol : Mol Q :=
  {| GetAtoms := [sample_atom 6; sample_atom 6; sample_atom 8];
     GetBonds := [ {| GetBeginAtomIdx := 0; GetEndAtomIdx := 1; GetBondType := SINGLE |};
                   {| GetBeginAtomIdx := 1; GetEndAtomIdx := 2; GetBondType := DOUBLE |} ];
     GetProp_Name := "gdb_sample"; MolToSmiles := "CC=O" |}.

(** Two carbon atoms and a sulfur atom (atomic number 16). *)
Definition sulfur_mol : Mol Q :=
  {| GetAtoms := [sample_atom 6; sample_atom 16; sample_atom 6];
     GetBonds := [ {| GetBeginAtomIdx := 0; GetEndAtomIdx := 1; GetBondType := SINGLE |};
                   {| GetBeginAtomIdx := 1; GetEndAtomIdx := 2; GetBondType := SINGLE |} ];
     GetProp_Name := "gdb_sulfur"; MolToSmiles := "CSC" |}.

(** Two bonded carbon atoms and, last, a fluorine atom without any bond. *)
Definition lone_atom_mol : Mol Q :=
  {| GetAtoms := [sample_atom 6; sample_atom 6; sample_atom 9];
     GetBonds := [ {| GetBeginAtomIdx := 0; GetEndAtomIdx := 1; GetBondType := TRIPLE |} ];
     GetProp_Name := "gdb_lone"; MolToSmiles := "C#C.F" |}.

(** A label row of 19 columns holding 0, 1, ..., 18. *)
Definition sample_row : list Q := (λ n, inject_Z (Z.of_nat n)) <$> seq 0 19.

(** The entry [process] builds from [sample_mol] and [sample_row]. *)
Definition sample_item : Item Q bool :=
  {| pos := Arr2 3 [[0; 0; 0]; [0; 0; 0]; [0; 0; 0]]%Q;
     x := Arr2 5 [[false; true; false; false; false];
                  [false; true; false; false; false];
                  [false; false; false; true; false]];
     y := zip_with Qmult (drop 3 sample_row ++ take 3 sample_row) conversion_factors;
     edge_index := [(1, 0); (0, 1); (2, 1); (1, 2)];
     edge_attr := Arr2 4 [[true; false; false; false]; [true; false; false; false];
                          [false; true; false; false]; [false; true; false; false]];
     name := "gdb_sample"; smiles := "CC=O"; idx := 0 |}.

(** [n] further calls [self[i]] after a first one: what the last call
    returned and the dataset it left. *)
Definition getitem_again {F} (i : Z) (n : nat)
    (r : result (Item F F * QM9Dataset F)) : result (Item F F * QM9Dataset F) :=
  Nat.iter n (λ r, r ≫= λ p, __getitem__ p.2 i) r.

(** The dataset after [dataset_to_pytorch] on the corpus of [sample_mol],
    with the target ["alpha"] selected. *)
Definition sample_dataset : QM9Dataset Q :=
  {| target_index := Some 1%nat; data := dataset_to_pytorch [sample_item] |}.

(** Two copies of the sample molecule, as [__getitem__] hands them to
    [collate_fn] when no target is selected. *)
Definition sample_batch : list (Item Q Q) :=
  dataset_to_pytorch [sample_item; sample_item].

(** The batch [collate_fn] builds from [sample_batch]: six atoms, eight
    directed edges. *)
Definition sample_collated : Batch Q :=
  {| b_pos := Arr2 3 (replicate 6 [0; 0; 0]%Q);
     b_x := Arr2 5 [[0; 1; 0; 0; 0]; [0; 1; 0; 0; 0]; [0; 0; 0; 1; 0];
                    [0; 1; 0; 0; 0]; [0; 1; 0; 0; 0]; [0; 0; 0; 1; 0]]%Q;
     b_y := Arr2 19 [y sample_item; y sample_item];
     b_batch := [0; 0; 0; 1; 1; 1];
     b_ptr := [0; 3; 6];
     b_edge_index := [(1, 0); (0, 1); (2, 1); (1, 2); (4, 3); (3, 4); (5, 4); (4, 5)];
     b_edge_attr := Arr2 4 [[1; 0; 0; 0]; [1; 0; 0; 0]; [0; 1; 0; 0]; [0; 1; 0; 0];
                            [1; 0; 0; 0]; [1; 0; 0; 0]; [0; 1; 0; 0]; [0; 1; 0; 0]]%Q |}.

(** The batch of the single molecule [lone_atom_mol], through [process],
    [dataset_to_pytorch] and [collate_fn]: atoms 0, 1 and 2, one bond
    between 0 and 1. *)
Definition lone_collated : Batch Q :=
  {| b_pos := Arr2 3 (replicate 3 [0; 0; 0]%Q);
     b_x := Arr2 5 [[0; 1; 0; 0; 0]; [0; 1; 0; 0; 0]; [0; 0; 0; 0; 1]]%Q;
     b_y := Arr2 19 [y sample_item];
     b_batch := [0; 0; 0];
     b_ptr := [0; 3];
     b_edge_index := [(1, 0); (0, 1)];
     b_edge_attr := Arr2 4 [[0; 0; 1; 0]; [0; 0; 1; 0]]%Q |}.

(** Two carbon atoms without a bond. *)
Definition unbonded_mol : Mol Q :=
  {| GetAtoms := [sample_atom 6; sample_atom 6];
     GetBonds := [];
     GetProp_Name := "gdb_unbonded"; MolToSmiles := "C.C" |}.

(* ===================================================================== *)
(** ** Theorems *)

Section TargetsFacts.
Context {F : Type} `{Float32 F}.

Lemma conversion_factors_length : length (conversion_factors (F:=F)) = 19%nat.
Proof. reflexivity. Qed.

Lemma rearrange_row_length (row : list F) :
  length (rearrange_row row) = length row.
Proof.
  unfold rearrange_row. rewrite length_app, length_drop, length_take. lia.
Qed.
End TargetsFacts.

(* --------------------------------------------------------------------- *)
(** *** The error monad *)

Lemma bind_Ok {A B} (m : result A) (f : A → result B) (b : B) :
  m ≫= f = Ok b ↔ ∃ a, m = Ok a ∧ f a = Ok b.
Proof.
  destruct m as [a|e]; simpl; split.
  - eauto.
  - by intros (a' & [= ->] & ?).
  - done.
  - by intros (a' & ? & ?).
Qed.

Lemma mapM_result_Ok {A B} (f : A → result B) (g : A → B) (l : list A) :
  (∀ a, a ∈ l → f a = Ok (g a)) → mapM f l = Ok (g <$> l).
Proof.
  induction l as [|a l IH]; intros Hf; simpl; [done|].
  rewrite (Hf a) by left. simpl.
  rewrite IH; [done|]. intros b Hb. apply Hf. by right.
Qed.

Lemma mapM_result_Raise {A B} (f : A → result B) (e : exn) (l : list A) :
  (∀ a, a ∈ l → f a = Raise e ∨ is_Ok (f a) = true) →
  (∃ a, a ∈ l ∧ f a = Raise e) →
  mapM f l = Raise e.
Proof.
  induction l as [|a l IH]; intros Hall (b & Hb & Hfb).
  - by apply elem_of_nil in Hb.
  - simpl. destruct (f a) as [c|e'] eqn:Hfa; simpl.
    + rewrite IH; [done| |].
      * intros a' Ha'. apply Hall. by right.
      * apply elem_of_cons in Hb as [->|Hb]; [congruence|eauto].
    + destruct (Hall a) as [Hr|Hr]; [by left| |]; rewrite Hfa in Hr;
        [congruence|discriminate].
Qed.

Lemma list_get_Ok {A} (l : list A) (i : nat) (d : A) :
  (i < length l)%nat → list_get l i = Ok (nth i l d).
Proof.
  intros Hi. unfold list_get.
  destruct (nth_lookup_or_length l i d) as [Hl|]; [|lia].
  destruct (l !! i) as [a|] eqn:E.
  - by rewrite (nth_lookup_Some _ _ d a E).
  - apply lookup_ge_None in E. lia.
Qed.

(** Gathering along indexes that are all in range never fails. *)
Lemma np_take_Ok {A} (l : list A) (idx : list nat) (d : A) :
  Forall (λ i, (i < length l)%nat) idx →
  np_take l idx = Ok ((λ i, nth i l d) <$> idx).
Proof.
  intros Hidx. apply mapM_result_Ok. intros i Hi.
  apply list_get_Ok. rewrite Forall_forall in Hidx. by apply Hidx.
Qed.

Lemma nth_seq_id {A} (l : list A) (d : A) :
  (λ i, nth i l d) <$> seq 0 (length l) = l.
Proof.
  apply list_eq. intros i. rewrite list_lookup_fmap.
  destruct (decide (i < length l)%nat) as [Hi|Hi].
  - rewrite lookup_seq_lt by done. simpl.
    destruct (lookup_lt_is_Some_2 l i Hi) as [a Ha].
    rewrite Ha. f_equal. by apply nth_lookup_Some.
  - rewrite lookup_seq_ge by lia. simpl. symmetry. apply lookup_ge_None. lia.
Qed.

(** Gathering along a permutation of all positions permutes the list. *)
Lemma gather_Permutation {A} (l : list A) (idx : list nat) (d : A) :
  idx ≡ₚ seq 0 (length l) → (λ i, nth i l d) <$> idx ≡ₚ l.
Proof.
  intros Hp. rewrite Hp. by rewrite nth_seq_id.
Qed.

(* --------------------------------------------------------------------- *)
(** *** The label table *)

Section TargetsTheorems.
Context {F : Type} `{Float32 F}.

Lemma targets_row_19 (row : list F) :
  length row = 19%nat →
  targets_row row = Ok (zip_with fmul (drop 3 row ++ take 3 row) conversion_factors).
Proof.
  intros Hlen. unfold targets_row, np_mul_row.
  rewrite rearrange_row_length, conversion_factors_length.
  by rewrite decide_True.
Qed.

Lemma process_targets_19 (raw : list (list F)) :
  Forall (λ row, length row = 19%nat) raw →
  process_targets raw =
    Ok ((λ row, zip_with fmul (drop 3 row ++ take 3 row) conversion_factors) <$> raw).
Proof.
  intros Hraw. apply mapM_result_Ok. intros row Hrow.
  apply targets_row_19. rewrite Forall_forall in Hraw. by apply Hraw.
Qed.

(** C7. A raw row of 19 columns [A, B, C, mu, alpha, ...] (the order of
    the label file) comes out in the order of [TARGETS]: the first three
    columns are moved to the end, and every column is multiplied by its
    entry of [conversion_factors], which is the float32 image of 1.0
    (mu, alpha, r2, Cv, A, B, C), of [HAR2EV] (homo, lumo, gap, zpve, U0,
    U, H, G) or of [KCALMOL2EV] (the four [_atom] columns). *)
Theorem C7_targets_reordered_and_scaled
    (A B C mu alpha homo lumo gap r2 zpve U0 U H_ G Cv
     U0_atom U_atom H_atom G_atom : F) :
  let raw := [A; B; C; mu; alpha; homo; lumo; gap; r2; zpve; U0; U; H_; G; Cv;
              U0_atom; U_atom; H_atom; G_atom] in
  let one := f32 1 in
  let har := f32 HAR2EV in
  let kcal := f32 KCALMOL2EV in
  rearrange_row raw =
    [mu; alpha; homo; lumo; gap; r2; zpve; U0; U; H_; G; Cv;
     U0_atom; U_atom; H_atom; G_atom; A; B; C] ∧
  targets_row raw =
    Ok [fmul mu one; fmul alpha one; fmul homo har; fmul lumo har;
        fmul gap har; fmul r2 one; fmul zpve har; fmul U0 har; fmul U har;
        fmul H_ har; fmul G har; fmul Cv one; fmul U0_atom kcal;
        fmul U_atom kcal; fmul H_atom kcal; fmul G_atom kcal;
        fmul A one; fmul B one; fmul C one] ∧
  process_targets [raw] = (λ row, [row]) <$> targets_row raw ∧
  length conversion_factors = length TARGETS.
Proof.
  intros raw one har kcal. split_and!; reflexivity.
Qed.
End TargetsTheorems.

(* --------------------------------------------------------------------- *)
(** *** [np.lexsort] *)

Lemma lex_le_spec (p q : Z * Z) :
  lex_le p q = true ↔ p.1 < q.1 ∨ (p.1 = q.1 ∧ p.2 ≤ q.2).
Proof.
  unfold lex_le.
  rewrite orb_true_iff, andb_true_iff, Z.ltb_lt, Z.eqb_eq, Z.leb_le. tauto.
Qed.

Lemma lex_le_total (p q : Z * Z) : lex_le p q = false → lex_le q p = true.
Proof.
  intros Hpq. apply lex_le_spec.
  destruct (lex_le q p) eqn:Hqp; [by apply lex_le_spec|].
  apply not_true_iff_false in Hpq, Hqp.
  rewrite lex_le_spec in Hpq, Hqp. lia.
Qed.

Lemma lex_le_trans (p q r : Z * Z) :
  lex_le p q = true → lex_le q r = true → lex_le p r = true.
Proof. rewrite !lex_le_spec. lia. Qed.

Section InsertIdx.
Variable key : nat → Z * Z.

Local Abbreviation key_le := (λ i j : nat, lex_le (key i) (key j) = true).

Lemma insert_idx_Permutation (i : nat) (l : list nat) :
  insert_idx key i l ≡ₚ i :: l.
Proof.
  induction l as [|j l IH]; simpl; [done|].
  destruct (lex_le (key i) (key j)); [done|].
  rewrite IH. apply Permutation_swap.
Qed.

Lemma insert_idx_sorted (i : nat) (l : list nat) :
  StronglySorted key_le l → StronglySorted key_le (insert_idx key i l).
Proof.
  induction 1 as [|j l Hl IH Hj]; simpl.
  - repeat constructor.
  - destruct (lex_le (key i) (key j)) eqn:Hij.
    + constructor; [by constructor|].
      constructor; [done|].
      eapply Forall_impl; [exact Hj|].
      intros k Hjk. simpl in *. by eapply lex_le_trans.
    + constructor; [done|].
      rewrite insert_idx_Permutation. constructor; [|done].
      by apply lex_le_total.
Qed.

Lemma foldr_insert_idx_Permutation (l : list nat) :
  foldr (insert_idx key) [] l ≡ₚ l.
Proof.
  induction l as [|i l IH]; simpl; [done|].
  by rewrite insert_idx_Permutation, IH.
Qed.

Lemma foldr_insert_idx_sorted (l : list nat) :
  StronglySorted key_le (foldr (insert_idx key) [] l).
Proof.
  induction l as [|i l IH]; simpl; [constructor|].
  by apply insert_idx_sorted.
Qed.
End InsertIdx.

(** The index array of [np.lexsort] is a permutation of all positions. *)
Lemma lexsort_Permutation (a b : list Z) : lexsort a b ≡ₚ seq 0 (length b).
Proof. apply foldr_insert_idx_Permutation. Qed.

Lemma lexsort_in_range (a b : list Z) :
  Forall (λ i, (i < length b)%nat) (lexsort a b).
Proof.
  rewrite lexsort_Permutation. apply Forall_forall.
  intros i Hi. apply elem_of_seq in Hi. lia.
Qed.

Lemma lexsort_sorted (a b : list Z) :
  StronglySorted (λ i j, lex_le (b !!! i, a !!! i) (b !!! j, a !!! j) = true)
    (lexsort a b).
Proof. apply (foldr_insert_idx_sorted (λ i, (b !!! i, a !!! i))). Qed.

(** [sort_edges] written with its index array: both arrays are gathered
    along the same permutation. *)
Lemma sort_edges_Ok {S} (e : list (Z * Z)) (t : list S) (dt : S) :
  e ≠ [] → length t = length e →
  sort_edges e t =
    Ok ((λ i, nth i e (0, 0)) <$> lexsort (e.*1) (e.*2),
        (λ i, nth i t dt) <$> lexsort (e.*1) (e.*2)).
Proof.
  intros Hne Hlen. unfold sort_edges. rewrite decide_False by done. simpl.
  pose proof (lexsort_in_range (e.*1) (e.*2)) as Hr.
  rewrite length_fmap in Hr.
  rewrite (np_take_Ok e _ (0, 0)) by done. simpl.
  rewrite (np_take_Ok t _ dt) by (by rewrite Hlen). done.
Qed.

Lemma sort_edges_inv {S} (e : list (Z * Z)) (t : list S) e' t' :
  sort_edges e t = Ok (e', t') →
  e ≠ [] ∧ np_take e (lexsort (e.*1) (e.*2)) = Ok e' ∧
  np_take t (lexsort (e.*1) (e.*2)) = Ok t'.
Proof.
  unfold sort_edges. destruct (decide (e = [])); simpl; [done|].
  destruct (np_take e _) as [e1|]; simpl; [|done].
  destruct (np_take t _) as [t1|]; simpl; [|done].
  by intros [= -> ->].
Qed.

Lemma sorted_edges_dest_src (e : list (Z * Z)) :
  StronglySorted dest_src_le ((λ i, nth i e (0, 0)) <$> lexsort (e.*1) (e.*2)).
Proof.
  pose proof (lexsort_sorted (e.*1) (e.*2)) as Hs.
  pose proof (lexsort_in_range (e.*1) (e.*2)) as Hr.
  rewrite length_fmap in Hr.
  induction Hs as [|i l Hl IH Hi]; csimpl; constructor.
  - apply IH. by inversion Hr.
  - apply Forall_fmap. inversion Hr as [|? ? Hilt Hlr]; subst.
    rewrite Forall_forall in Hi, Hlr |- *. intros j Hj.
    specialize (Hi j Hj). specialize (Hlr j Hj). simpl in *.
    apply lex_le_spec in Hi. simpl in Hi.
    assert (Hk : ∀ k, (k < length e)%nat →
      e.*2 !!! k = (nth k e (0, 0)).2 ∧ e.*1 !!! k = (nth k e (0, 0)).1).
    { intros k Hk. destruct (lookup_lt_is_Some_2 e k Hk) as [p Hp].
      rewrite (nth_lookup_Some _ _ _ _ Hp).
      split; apply list_lookup_total_correct;
        by rewrite list_lookup_fmap, Hp. }
    destruct (Hk i Hilt) as [Hi2 Hi1]. destruct (Hk j Hlr) as [Hj2 Hj1].
    rewrite Hi2, Hi1, Hj2, Hj1 in Hi. exact Hi.
Qed.

(* --------------------------------------------------------------------- *)
(** *** The record parser *)

Lemma edge_indices_length (bonds : list Bond) :
  length (edge_indices bonds) = (2 * length bonds)%nat.
Proof.
  induction bonds as [|b bonds IH]; [done|].
  unfold edge_indices in *. rewrite bind_cons, length_app, IH. simpl. lia.
Qed.

Lemma edge_attrs_length (bonds : list Bond) :
  length (edge_attrs bonds) = length (edge_indices bonds).
Proof.
  rewrite edge_indices_length.
  induction bonds as [|b bonds IH]; [done|].
  unfold edge_attrs in *. rewrite bind_cons, length_app, IH. simpl. lia.
Qed.

(** Before the sort, the reverse of the edge at a position sits next to it
    with the same feature row. *)
Lemma edges_paired (bonds : list Bond) (i : nat) (e : Z * Z) (t : list bool) :
  edge_indices bonds !! i = Some e → edge_attrs bonds !! i = Some t →
  ∃ i', edge_indices bonds !! i' = Some (reversed e) ∧
        edge_attrs bonds !! i' = Some t.
Proof.
  revert i. induction bonds as [|b bonds IH]; intros i He Ht; [done|].
  unfold edge_indices, edge_attrs in *.
  rewrite bind_cons in He. rewrite bind_cons in Ht.
  destruct i as [|[|i]]; simpl in *.
  - exists 1%nat. by simplify_eq.
  - exists 0%nat. by simplify_eq.
  - destruct (IH i He Ht) as (i' & He' & Ht').
    by exists (S (S i')).
Qed.

Section ProcessTheorems.
Context {F : Type} `{Float32 F}.

Lemma atom_row_cases (a : Atom F) :
  atom_row a = Raise KeyError ∨ is_Ok (atom_row a) = true.
Proof.
  unfold atom_row, dict_get. destruct (atom_types !! _); simpl; auto.
Qed.

Lemma atom_row_outside (a : Atom F) :
  outside_vocabulary (GetAtomicNum a) → atom_row a = Raise KeyError.
Proof. unfold outside_vocabulary, atom_row, dict_get. by intros ->. Qed.

(** A record with an atom outside the vocabulary stops [process_mol] in
    the loop over the atoms, before anything else can fail. *)
Lemma process_mol_KeyError (targets : list (list F)) (i : nat) (mol : Mol F) :
  (∃ a, a ∈ GetAtoms mol ∧ outside_vocabulary (GetAtomicNum a)) →
  process_mol targets i mol = Raise KeyError.
Proof.
  intros (a & Ha & Hout). unfold process_mol.
  rewrite (mapM_result_Raise atom_row KeyError); [done| |].
  - intros b _. apply atom_row_cases.
  - exists a. split; [done|]. by apply atom_row_outside.
Qed.

Lemma process_mol_inv (targets : list (list F)) (i : nat) (mol : Mol F) item :
  process_mol targets i mol = Ok item →
  idx item = i ∧ list_get targets i = Ok (y item) ∧
  sort_edges (edge_indices (GetBonds mol)) (edge_attrs (GetBonds mol)) =
    Ok (edge_index item, rows (edge_attr item)).
Proof.
  unfold process_mol.
  destruct (mapM atom_row _) as [xr|]; simpl; [|done].
  destruct (list_get targets i) as [yv|]; simpl; [|done].
  destruct (sort_edges _ _) as [[e' t']|]; simpl; [|done].
  by intros [= <-].
Qed.

Lemma process_loop_app (targets : list (list F)) (skip : gset Z) (i : nat)
    (pre rest : list (option (Mol F))) :
  process_loop targets skip i (pre ++ rest) =
    d1 ← process_loop targets skip i pre;
    d2 ← process_loop targets skip (i + length pre) rest;
    Ok (d1 ++ d2).
Proof.
  revert i. induction pre as [|m pre IH]; intros i; simpl.
  - rewrite Nat.add_0_r. by destruct (process_loop _ _ _ rest).
  - replace (i + S (length pre))%nat with (S i + length pre)%nat by lia.
    destruct m as [m|]; [|apply IH].
    destruct (decide (Z.of_nat i ∈ skip)); [apply IH|].
    destruct (process_mol targets i m) as [item|]; simpl; [|done].
    rewrite IH.
    destruct (process_loop targets skip (S i) pre); simpl; [|done].
    by destruct (process_loop _ _ _ rest).
Qed.

(** Every entry of the corpus comes from a record of the stream that was
    neither unparsable nor excluded, and keeps its position as [idx]. *)
Lemma process_loop_elem (targets : list (list F)) (skip : gset Z) (i : nat)
    (suppl : list (option (Mol F))) data_list item :
  process_loop targets skip i suppl = Ok data_list → item ∈ data_list →
  ∃ mol, (i ≤ idx item)%nat ∧ suppl !! (idx item - i)%nat = Some (Some mol) ∧
         process_mol targets (idx item) mol = Ok item.
Proof.
  revert i data_list. induction suppl as [|m suppl IH]; intros i data_list; simpl.
  - intros [= <-] Hin. by apply elem_of_nil in Hin.
  - assert (Hrec : ∀ dl, process_loop targets skip (S i) suppl = Ok dl →
      item ∈ dl → ∃ mol, (i ≤ idx item)%nat ∧
        (m :: suppl) !! (idx item - i)%nat = Some (Some mol) ∧
        process_mol targets (idx item) mol = Ok item).
    { intros dl Hdl Hin. destruct (IH _ _ Hdl Hin) as (mol & Hle & Hl & Hp).
      exists mol. split; [lia|]. split; [|done].
      replace (idx item - i)%nat with (S (idx item - S i)) by lia. done. }
    destruct m as [m|]; [|by apply Hrec].
    destruct (decide (Z.of_nat i ∈ skip)); [by apply Hrec|].
    destruct (process_mol targets i m) as [it|] eqn:Hm; simpl; [|done].
    destruct (process_loop targets skip (S i) suppl) as [dl|] eqn:Hdl;
      simpl; [|done].
    intros [= <-] Hin. apply elem_of_cons in Hin as [->|Hin]; [|by eapply Hrec].
    destruct (process_mol_inv _ _ _ _ Hm) as (Hidx & _).
    exists m. rewrite Hidx, Nat.sub_diag. by split; [lia|].
Qed.

Lemma process_elem (raw : list (list F)) (skip : gset Z)
    (suppl : list (option (Mol F))) data_list item :
  process raw skip suppl = Ok data_list → item ∈ data_list →
  ∃ mol, suppl !! idx item = Some (Some mol) ∧
    sort_edges (edge_indices (GetBonds mol)) (edge_attrs (GetBonds mol)) =
      Ok (edge_index item, rows (edge_attr item)).
Proof.
  unfold process. intros Hp Hin. apply bind_Ok in Hp as (targets & _ & Hp).
  destruct (process_loop_elem _ _ _ _ _ _ Hp Hin) as (mol & _ & Hl & Hm).
  rewrite Nat.sub_0_r in Hl. exists mol. split; [done|].
  by destruct (process_mol_inv _ _ _ _ Hm) as (_ & _ & ?).
Qed.

(** What [sort_edges] returns for the edges of a record. *)
Lemma process_elem_sorted (raw : list (list F)) (skip : gset Z)
    (suppl : list (option (Mol F))) data_list item :
  process raw skip suppl = Ok data_list → item ∈ data_list →
  ∃ mol, suppl !! idx item = Some (Some mol) ∧
    let e := edge_indices (GetBonds mol) in
    let t := edge_attrs (GetBonds mol) in
    edge_index item = (λ k, nth k e (0, 0)) <$> lexsort (e.*1) (e.*2) ∧
    rows (edge_attr item) = (λ k, nth k t []) <$> lexsort (e.*1) (e.*2).
Proof.
  intros Hp Hin. destruct (process_elem _ _ _ _ _ Hp Hin) as (mol & Hl & Hs).
  exists mol. split; [done|]. simpl.
  destruct (sort_edges_inv _ _ _ _ Hs) as (Hne & _ & _).
  rewrite (sort_edges_Ok _ _ []) in Hs by (done || apply edge_attrs_length).
  by simplify_eq.
Qed.

Lemma mapM_result_length {A B} (f : A → result B) (l : list A) (k : list B) :
  mapM f l = Ok k → length k = length l.
Proof.
  revert k. induction l as [|a l IH]; intros k; simpl.
  - by intros [= <-].
  - destruct (f a); simpl; [|done].
    destruct (mapM f l) as [k'|]; simpl; [|done].
    intros [= <-]. simpl. by rewrite (IH k').
Qed.

Lemma np_take_elem {A} (l : list A) (idx : list nat) (k : list A) (a : A) :
  np_take l idx = Ok k → a ∈ k → a ∈ l.
Proof.
  unfold np_take. revert k. induction idx as [|i idx IH]; intros k; simpl.
  - intros [= <-] Ha. by apply elem_of_nil in Ha.
  - destruct (list_get l i) as [b|] eqn:Hb; simpl; [|done].
    destruct (mapM (list_get l) idx) as [k'|]; simpl; [|done].
    intros [= <-] Ha. apply elem_of_cons in Ha as [->|Ha].
    + unfold list_get in Hb. destruct (l !! i) as [b'|] eqn:Hl; [|done].
      simplify_eq. by eapply list_elem_of_lookup_2.
    + by eapply IH.
Qed.

(** An entry built from a record whose bonds join atoms of the record (as
    RDKit guarantees) has, after [dataset_to_pytorch], the shape of a
    molecule graph. *)
Lemma process_mol_MoleculeGraph (targets : list (list F)) (i : nat)
    (mol : Mol F) item :
  process_mol targets i mol = Ok item →
  (∀ b, b ∈ GetBonds mol →
     (GetBeginAtomIdx b < length (GetAtoms mol))%nat ∧
     (GetEndAtomIdx b < length (GetAtoms mol))%nat) →
  MoleculeGraph (Item_float32 item).
Proof.
  intros Hm Hbonds.
  destruct (process_mol_inv _ _ _ _ Hm) as (_ & _ & Hs).
  apply sort_edges_inv in Hs as (_ & Hs & _).
  unfold process_mol in Hm.
  destruct (mapM atom_row _) as [xr|] eqn:Hx; simpl in Hm; [|done].
  apply mapM_result_length in Hx.
  destruct (list_get targets i) as [yv|]; simpl in Hm; [|done].
  destruct (sort_edges _ _) as [[e' t']|]; simpl in Hm; [|done].
  simplify_eq. unfold MoleculeGraph, nrows. simpl.
  split_and!; [done..|]. rewrite length_map, Hx.
  intros e He. apply (np_take_elem _ _ _ _ Hs) in He.
  unfold edge_indices in He. apply list_elem_of_bind in He as (b & He & Hb).
  destruct (Hbonds b Hb).
  apply elem_of_cons in He as [->|He]; [simpl; lia|].
  apply list_elem_of_singleton in He as ->. simpl. lia.
Qed.

(** C3. In every entry of the corpus that [process] builds, [edge_index]
    is sorted by destination atom and then by source atom, and
    [edge_index] and [edge_attr] are the edges and the feature rows of the
    record gathered along one and the same permutation of their positions,
    so that row [k] of [edge_attr] still belongs to edge [k].  The edges
    (0,1), (1,0), (1,2), (2,1) come out as (1,0), (0,1), (2,1), (1,2). *)
Theorem C3_edges_sorted_jointly (raw : list (list F)) (skip : gset Z)
    (suppl : list (option (Mol F))) data_list item :
  process raw skip suppl = Ok data_list → item ∈ data_list →
  StronglySorted dest_src_le (edge_index item) ∧
  (∃ mol sort_indices,
     suppl !! idx item = Some (Some mol) ∧
     sort_indices ≡ₚ seq 0 (length (edge_indices (GetBonds mol))) ∧
     edge_index item =
       (λ k, nth k (edge_indices (GetBonds mol)) (0, 0)) <$> sort_indices ∧
     rows (edge_attr item) =
       (λ k, nth k (edge_attrs (GetBonds mol)) []) <$> sort_indices) ∧
  sort_edges [(0, 1); (1, 0); (1, 2); (2, 1)]
      [bond_type SINGLE; bond_type SINGLE; bond_type DOUBLE; bond_type DOUBLE] =
    Ok ([(1, 0); (0, 1); (2, 1); (1, 2)],
        [bond_type SINGLE; bond_type SINGLE; bond_type DOUBLE; bond_type DOUBLE]).
Proof.
  intros Hp Hin.
  destruct (process_elem_sorted _ _ _ _ _ Hp Hin) as (mol & Hl & He & Ht).
  split_and!.
  - rewrite He. apply sorted_edges_dest_src.
  - exists mol, (lexsort ((edge_indices (GetBonds mol)).*1)
                         ((edge_indices (GetBonds mol)).*2)).
    split_and!; [done| |done|done].
    rewrite lexsort_Permutation. by rewrite length_fmap.
  - reflexivity.
Qed.

(** C4. In every entry of the corpus, the reverse (v,u) of each edge (u,v)
    is an edge as well, and its row of [edge_attr] is the row of (u,v). *)
Theorem C4_edges_symmetric (raw : list (list F)) (skip : gset Z)
    (suppl : list (option (Mol F))) data_list item (k : nat) (u v : Z) :
  process raw skip suppl = Ok data_list → item ∈ data_list →
  edge_index item !! k = Some (u, v) →
  ∃ k' row, edge_index item !! k' = Some (v, u) ∧
            rows (edge_attr item) !! k' = Some row ∧
            rows (edge_attr item) !! k = Some row.
Proof.
  intros Hp Hin Hk.
  destruct (process_elem_sorted _ _ _ _ _ Hp Hin) as (mol & _ & He & Ht).
  simpl in He, Ht.
  set (e := edge_indices (GetBonds mol)) in *.
  set (t := edge_attrs (GetBonds mol)) in *.
  set (p := lexsort (e.*1) (e.*2)) in *.
  assert (Hperm : p ≡ₚ seq 0 (length e)).
  { unfold p. rewrite lexsort_Permutation. by rewrite length_fmap. }
  assert (Hlen : length t = length e) by apply edge_attrs_length.
  rewrite He, list_lookup_fmap in Hk.
  destruct (p !! k) as [i|] eqn:Hpk; [|done]. simpl in Hk.
  assert (Hi : (i < length e)%nat).
  { assert (i ∈ seq 0 (length e)) as Hs.
    { rewrite <- Hperm. by eapply list_elem_of_lookup_2. }
    apply elem_of_seq in Hs. lia. }
  destruct (lookup_lt_is_Some_2 e i Hi) as [ei Hei].
  destruct (lookup_lt_is_Some_2 t i ltac:(lia)) as [ti Hti].
  rewrite (nth_lookup_Some _ _ _ _ Hei) in Hk. simplify_eq.
  destruct (edges_paired _ _ _ _ Hei Hti) as (i' & Hei' & Hti').
  assert (i' ∈ p) as Hi'.
  { rewrite Hperm. apply elem_of_seq. apply lookup_lt_Some in Hei'.
    fold e in Hei'. lia. }
  apply list_elem_of_lookup in Hi' as [k' Hk'].
  exists k', ti. rewrite He, Ht, !list_lookup_fmap, Hk', Hpk. simpl.
  by rewrite (nth_lookup_Some _ _ _ _ Hei'), (nth_lookup_Some _ _ _ _ Hti'),
    (nth_lookup_Some _ _ _ _ Hti).
Qed.
End ProcessTheorems.

Lemma sample_processed :
  process [sample_row] ∅ [Some sample_mol] = Ok [sample_item].
Proof. vm_compute. reflexivity. Qed.

Lemma C3_edges_sorted_jointly_witness :
  process [sample_row] ∅ [Some sample_mol] = Ok [sample_item] ∧
  StronglySorted dest_src_le (edge_index sample_item).
Proof.
  assert (Hp : process [sample_row] ∅ [Some sample_mol] = Ok [sample_item])
    by (vm_compute; reflexivity).
  split; [exact Hp|].
  apply (C3_edges_sorted_jointly [sample_row] ∅ [Some sample_mol]
           [sample_item] sample_item Hp).
  left.
Defined.

Lemma C4_edges_symmetric_witness :
  ∃ k' row, edge_index sample_item !! k' = Some (0, 1) ∧
            rows (edge_attr sample_item) !! k' = Some row ∧
            rows (edge_attr sample_item) !! 0%nat = Some row.
Proof.
  apply (C4_edges_symmetric [sample_row] ∅ [Some sample_mol]
           [sample_item] sample_item 0 1 0).
  - vm_compute. reflexivity.
  - left.
  - reflexivity.
Defined.

(* --------------------------------------------------------------------- *)
(** *** Atoms outside the vocabulary *)

(** A record with a sulfur atom, met by [process]: the failure is a
    [KeyError], which no [except ValueError] clause would catch. *)
Lemma C9_counterexample :
  (∃ a, a ∈ GetAtoms sulfur_mol ∧ outside_vocabulary (GetAtomicNum a)) ∧
  process [sample_row] ∅ [Some sulfur_mol] = Raise KeyError ∧
  ¬ (∃ e, process [sample_row] ∅ [Some sulfur_mol] = Raise e ∧
          isinstance e cls_ValueError = true).
Proof.
  assert (Hp : process [sample_row] ∅ [Some sulfur_mol] = Raise KeyError)
    by (vm_compute; reflexivity).
  split_and!.
  - exists (sample_atom 16). split; [|reflexivity]. right. left.
  - exact Hp.
  - intros (e & He & Hv). rewrite Hp in He. by simplify_eq.
Qed.

(** C9 (amended). When the records before it are processed without error
    and a record that is neither unparsable nor excluded holds an atom
    whose atomic number is not a key of [atom_types], [process] fails with
    [KeyError], an instance of [LookupError] and not of [ValueError]; it
    returns no corpus.  A record that is unparsable ([None]) or whose
    position is in [skip_indices] is passed over, whatever it holds. *)
Theorem C9_unknown_atom_raises_KeyError {F} `{Float32 F}
    (raw targets : list (list F)) (skip : gset Z)
    (pre post : list (option (Mol F))) (mol : Mol F) :
  process_targets raw = Ok targets →
  is_Ok (process_loop targets skip 0 pre) = true →
  Z.of_nat (length pre) ∉ skip →
  (∃ a, a ∈ GetAtoms mol ∧ outside_vocabulary (GetAtomicNum a)) →
  process raw skip (pre ++ Some mol :: post) = Raise KeyError ∧
  isinstance KeyError cls_LookupError = true ∧
  isinstance KeyError cls_ValueError = false ∧
  (∀ i rest, process_loop targets skip i (None :: rest) =
             process_loop targets skip (S i) rest) ∧
  (∀ i m rest, Z.of_nat i ∈ skip →
     process_loop targets skip i (Some m :: rest) =
     process_loop targets skip (S i) rest).
Proof.
  intros Ht Hpre Hskip Hatom. split_and!; try done.
  - unfold process. rewrite Ht. simpl. rewrite process_loop_app.
    destruct (process_loop targets skip 0 pre) as [d1|]; [|done]. simpl.
    rewrite decide_False by done.
    by rewrite (process_mol_KeyError _ _ _ Hatom).
  - intros i m rest Hi. simpl. by rewrite decide_True.
Qed.

Lemma C9_unknown_atom_raises_KeyError_witness :
  process [sample_row; sample_row] ∅
    ([Some sample_mol] ++ Some sulfur_mol :: [Some sample_mol]) = Raise KeyError.
Proof.
  refine (proj1 (C9_unknown_atom_raises_KeyError
    [sample_row; sample_row]
    [y sample_item; y sample_item] ∅
    [Some sample_mol] [Some sample_mol] sulfur_mol _ _ _ _)).
  - vm_compute. reflexivity.
  - vm_compute. reflexivity.
  - simpl. apply not_elem_of_empty.
  - exists (sample_atom 16). split; [|reflexivity]. right. left.
Defined.

(* --------------------------------------------------------------------- *)
(** *** The three-way split *)

Lemma qm9_sizes_sum : (TRAIN_SIZE + VAL_SIZE + TEST_SIZE = TOTAL_SIZE)%N.
Proof. reflexivity. Qed.

Lemma split_blocks_app (permutation : Z → list nat → list nat) (seed : Z)
    (total tr va : nat) :
  let '(b1, b2, b3) := split_blocks permutation seed total tr va in
  b1 ++ b2 ++ b3 = permutation seed (seq 0 total).
Proof.
  unfold split_blocks, py_slice. simpl.
  replace (tr + va - tr)%nat with va by lia.
  rewrite <- drop_drop, take_drop. apply take_drop.
Qed.

(** C6. For a generator whose [permutation] shuffles its argument, a seed
    and sizes with [Ttr + Tval + Tte = T], the blocks [perm[:Ttr]],
    [perm[Ttr:Ttr+Tval]] and [perm[Ttr+Tval:]] are, in this order, the
    permutation of [0 .. T-1] cut in three; they have the declared sizes,
    no index occurs twice or in two blocks, every index below [T] occurs
    in one of them, and a call with the same seed and total size yields
    the same blocks. *)
Theorem C6_split_blocks_partition (permutation : Z → list nat → list nat)
    (seed : Z) (T Ttr Tval Tte : nat) :
  (∀ s l, permutation s l ≡ₚ l) →
  (Ttr + Tval + Tte)%nat = T →
  ∃ train_idx val_idx test_idx,
    split_blocks permutation seed T Ttr Tval = (train_idx, val_idx, test_idx) ∧
    train_idx ++ val_idx ++ test_idx = permutation seed (seq 0 T) ∧
    length train_idx = Ttr ∧ length val_idx = Tval ∧ length test_idx = Tte ∧
    NoDup train_idx ∧ NoDup val_idx ∧ NoDup test_idx ∧
    (∀ i, i ∈ train_idx → i ∉ val_idx) ∧
    (∀ i, i ∈ train_idx → i ∉ test_idx) ∧
    (∀ i, i ∈ val_idx → i ∉ test_idx) ∧
    (∀ i, i ∈ train_idx ∨ i ∈ val_idx ∨ i ∈ test_idx ↔ (i < T)%nat) ∧
    (∀ seed' T', seed' = seed → T' = T →
       split_blocks permutation seed' T' Ttr Tval = (train_idx, val_idx, test_idx)).
Proof.
  intros Hperm Hsum.
  pose proof (split_blocks_app permutation seed T Ttr Tval) as Happ.
  destruct (split_blocks permutation seed T Ttr Tval) as [[b1 b2] b3] eqn:Hb.
  exists b1, b2, b3.
  assert (Hlen : length (permutation seed (seq 0 T)) = T).
  { by rewrite Hperm, length_seq. }
  assert (Hnd : NoDup (b1 ++ b2 ++ b3)).
  { rewrite Happ, Hperm. apply NoDup_seq. }
  apply NoDup_app in Hnd as (Hn1 & Hd1 & Hnd).
  apply NoDup_app in Hnd as (Hn2 & Hd2 & Hn3).
  unfold split_blocks, py_slice in Hb. simplify_eq.
  split_and!; try done.
  - rewrite length_take. lia.
  - rewrite length_take, length_drop. lia.
  - rewrite length_drop. lia.
  - intros i Hi Hi2. apply (Hd1 i Hi). apply elem_of_app. by left.
  - intros i Hi Hi3. apply (Hd1 i Hi). apply elem_of_app. by right.
  - intros i. rewrite <- !elem_of_app, Happ, Hperm, elem_of_seq. lia.
  - by intros ? ? -> ->.
Qed.

Lemma C6_split_blocks_partition_witness :
  ∃ train_idx val_idx test_idx,
    split_blocks (λ _ l, reverse l) 42 5 2 2 = (train_idx, val_idx, test_idx) ∧
    train_idx ++ val_idx ++ test_idx = reverse (seq 0 5) ∧
    length train_idx = 2%nat ∧ length val_idx = 2%nat ∧ length test_idx = 1%nat ∧
    NoDup train_idx ∧ NoDup val_idx ∧ NoDup test_idx ∧
    (∀ i, i ∈ train_idx → i ∉ val_idx) ∧
    (∀ i, i ∈ train_idx → i ∉ test_idx) ∧
    (∀ i, i ∈ val_idx → i ∉ test_idx) ∧
    (∀ i, i ∈ train_idx ∨ i ∈ val_idx ∨ i ∈ test_idx ↔ (i < 5)%nat) ∧
    (∀ seed' T', seed' = 42 → T' = 5%nat →
       split_blocks (λ _ l, reverse l) seed' T' 2 2 = (train_idx, val_idx, test_idx)).
Proof.
  apply (C6_split_blocks_partition (λ _ l, reverse l) 42 5 2 2 1).
  - intros _ l. apply reverse_Permutation.
  - reflexivity.
Defined.

(* --------------------------------------------------------------------- *)
(** *** [__getitem__] *)

Lemma list_index_Ok (l : list string) (s : string) (n : nat) :
  list_index l s = Ok n → l !! n = Some s.
Proof.
  revert n. induction l as [|t l IH]; intros n; simpl; [done|].
  destruct (decide (t = s)) as [->|]; [by intros [= <-]|].
  destruct (list_index l s) as [m|]; simpl; [|done].
  intros [= <-]. by apply IH.
Qed.

Lemma py_index_lt (len : nat) (i : Z) (loc : nat) :
  py_index len i = Ok loc → (loc < len)%nat.
Proof.
  unfold py_index. repeat case_decide; intros [= <-]; lia.
Qed.

Lemma py_slice_one {A} (l : list A) (k : nat) (v : A) :
  l !! k = Some v → py_slice k (k + 1) l = [v].
Proof.
  intros Hk. unfold py_slice. replace (k + 1 - k)%nat with 1%nat by lia.
  rewrite (drop_S _ _ _ Hk). done.
Qed.

(** C10. With a target selected by name and a stored record that still
    holds the whole target vector, the first [self[i]] for a valid [i]
    puts the one-element slice [[y[ti]]] in the stored record and returns
    that record; the other fields of the record and the other records are
    as before; every later [self[i]] returns the same record and leaves
    the dataset as the first call left it. *)
Theorem C10_getitem_projects_once {F} (self : QM9Dataset F) (target : string)
    (ti : nat) (i : Z) (loc : nat) (item : Item F F) :
  list_index TARGETS target = Ok ti →
  target_index self = Some ti →
  py_index (length (data self)) i = Ok loc →
  data self !! loc = Some item →
  length (y item) = length TARGETS →
  ∃ v, y item !! ti = Some v ∧
    let item' := set_y item [v] in
    let self' := {| target_index := Some ti;
                    data := <[loc := item']> (data self) |} in
    __getitem__ self i = Ok (item', self') ∧
    data self' !! loc = Some item' ∧
    (∀ j, j ≠ loc → data self' !! j = data self !! j) ∧
    __getitem__ self' i = Ok (item', self') ∧
    (∀ n, getitem_again i n (__getitem__ self i) = Ok (item', self')) ∧
    (pos item', x item', edge_index item', edge_attr item',
     name item', smiles item', idx item') =
    (pos item, x item, edge_index item, edge_attr item,
     name item, smiles item, idx item).
Proof.
  intros Hti Hsel Hloc Hitem Hlen.
  assert (Hlt : (ti < length (y item))%nat).
  { rewrite Hlen. apply list_index_Ok in Hti. by eapply lookup_lt_Some. }
  destruct (lookup_lt_is_Some_2 _ _ Hlt) as [v Hv].
  pose proof (py_index_lt _ _ _ Hloc) as Hloclt.
  exists v. split; [done|]. intros item' self'.
  assert (H1 : __getitem__ self i = Ok (item', self')).
  { unfold __getitem__. rewrite Hloc. simpl. unfold list_get. rewrite Hitem. simpl.
    rewrite Hsel. destruct (decide (1 < length (y item))%nat) as [_|Hn].
    - by rewrite (py_slice_one _ _ _ Hv).
    - rewrite Hlen in Hn. simpl in Hn. lia. }
  assert (Hl' : data self' !! loc = Some item').
  { simpl. by apply list_lookup_insert_eq. }
  assert (H2 : __getitem__ self' i = Ok (item', self')).
  { unfold __getitem__. simpl. rewrite length_insert, Hloc. simpl.
    unfold list_get. rewrite list_lookup_insert_eq by done. simpl.
    destruct (decide (1 < length (y item'))%nat) as [Hn|_]; [|done].
    simpl in Hn. lia. }
  split_and!; try done.
  - intros j Hj. simpl. by apply list_lookup_insert_ne.
  - intros n. unfold getitem_again.
    induction n as [|n IH]; [done|].
    change (Nat.iter (S n) ?f ?a) with (f (Nat.iter n f a)).
    by rewrite IH.
Qed.

Lemma C10_getitem_projects_once_witness :
  ∃ v, y sample_item !! 1%nat = Some v ∧
    ∃ item' self',
      __getitem__ sample_dataset 0 = Ok (item', self') ∧ y item' = [v] ∧
      __getitem__ self' 0 = Ok (item', self').
Proof.
  destruct (C10_getitem_projects_once sample_dataset "alpha" 1 0 0
              (Item_float32 sample_item))
    as (v & Hv & H1 & _ & _ & H2 & _).
  - reflexivity.
  - reflexivity.
  - reflexivity.
  - reflexivity.
  - reflexivity.
  - exists v. split; [exact Hv|]. eexists _, _. split; [exact H1|].
    split; [reflexivity|exact H2].
Defined.

(* --------------------------------------------------------------------- *)
(** *** [collate_fn] *)

Lemma wrap32_id (z : Z) : in_int32 z → wrap32 z = z.
Proof.
  unfold in_int32, wrap32. intros Hz.
  rewrite Z.mod_small; lia.
Qed.

Lemma sum_Z_app (l k : list Z) : sum_Z (l ++ k) = sum_Z l + sum_Z k.
Proof. induction l as [|a l IH]; simpl; [done|]. unfold sum_Z in *. simpl. lia. Qed.

Lemma sum_Z_nonneg (l : list Z) : Forall (λ n, 0 ≤ n) l → 0 ≤ sum_Z l.
Proof. induction 1; unfold sum_Z in *; simpl; lia. Qed.

Lemma atom_counts_nonneg {F S} (batch : list (Item F S)) :
  Forall (λ n, 0 ≤ n) (atom_counts batch).
Proof. apply Forall_fmap, Forall_true. intros item. simpl. lia. Qed.

Lemma sum_Z_take_le (l : list Z) (k : nat) :
  Forall (λ n, 0 ≤ n) l → 0 ≤ sum_Z (take k l) ≤ sum_Z l.
Proof.
  intros Hl. rewrite <- (take_drop k l) at 3. rewrite sum_Z_app.
  pose proof (sum_Z_nonneg (take k l) (Forall_take _ _ _ Hl)).
  pose proof (sum_Z_nonneg (drop k l) (Forall_drop _ _ _ Hl)). lia.
Qed.

Section CollateTheorems.
Context {F : Type}.
Implicit Types (st : collate_state F) (batch : list (Item F F)).

(** The lists of arrays when the loop ends. *)
Lemma collate_loop_arrays st i batch :
  let st' := collate_loop st i batch in
  c_pos st' = c_pos st ++ (pos <$> batch) ∧
  c_x st' = c_x st ++ (x <$> batch) ∧
  c_y st' = c_y st ++ (y <$> batch) ∧
  c_edge_attr_batch st' = c_edge_attr_batch st ++ (edge_attr <$> batch) ∧
  c_cum_nodes st' = c_cum_nodes st + sum_Z (atom_counts batch).
Proof.
  revert st i. induction batch as [|item batch IH]; intros st i; simpl.
  - rewrite !app_nil_r. unfold sum_Z. simpl. split_and!; (done || lia).
  - destruct (IH (collate_step st i item) (S i)) as (-> & -> & -> & -> & ->).
    simpl. rewrite <- !app_assoc. unfold sum_Z. simpl. split_and!; (done || lia).
Qed.

(** [ptr] when the loop ends: one running total per molecule. *)
Lemma collate_loop_ptr st i batch :
  c_ptr (collate_loop st i batch) =
    c_ptr st ++ ((λ k, c_cum_nodes st + sum_Z (take k (atom_counts batch)))
                   <$> seq 1 (length batch)).
Proof.
  revert st i. induction batch as [|item batch IH]; intros st i; simpl.
  - by rewrite app_nil_r.
  - rewrite IH. simpl. rewrite <- app_assoc. f_equal. simpl. f_equal.
    + unfold sum_Z. simpl. lia.
    + rewrite <- (fmap_S_seq 1), <- list_fmap_compose.
      apply list_fmap_ext. intros _ k _. simpl. unfold sum_Z. simpl. lia.
Qed.

(** The edges when the loop ends: an edge collected during the loop lies
    between the totals at its start and at its end. *)
Lemma collate_loop_edges st i batch e :
  Forall MoleculeGraph batch →
  e ∈ concat (c_edge_index_batch (collate_loop st i batch)) →
  e ∈ concat (c_edge_index_batch st) ∨
  (c_cum_nodes st ≤ e.1 < c_cum_nodes st + sum_Z (atom_counts batch) ∧
   c_cum_nodes st ≤ e.2 < c_cum_nodes st + sum_Z (atom_counts batch)).
Proof.
  intros Hwf. revert st i.
  induction Hwf as [|item batch Hitem Hwf IH]; intros st i; simpl; [by left|].
  intros He. apply IH in He as [He|He].
  - simpl in He. rewrite concat_app, elem_of_app in He.
    destruct He as [He|He]; [by left|right].
    simpl in He. rewrite app_nil_r in He.
    apply list_elem_of_fmap in He as (e0 & -> & He0).
    destruct Hitem as (_ & _ & _ & Hrange). specialize (Hrange e0 He0).
    pose proof (sum_Z_nonneg _ (atom_counts_nonneg batch)).
    unfold sum_Z in *. simpl. lia.
  - right. simpl in He.
    unfold sum_Z in *. simpl. lia.
Qed.

Lemma collate_loop_edge_batches st i batch :
  length (c_edge_index_batch (collate_loop st i batch)) =
    (length (c_edge_index_batch st) + length batch)%nat.
Proof.
  revert st i. induction batch as [|item batch IH]; intros st i; simpl; [lia|].
  rewrite IH. simpl. rewrite length_app. simpl. lia.
Qed.

Lemma np_concatenate0_Ok {A} (l : list (arr2 A)) (c : nat) :
  l ≠ [] → Forall (λ a, ncols a = c) l →
  np_concatenate0 l = Ok (Arr2 c (concat (rows <$> l))).
Proof.
  intros Hne Hl. destruct l as [|a l]; [done|]. simpl.
  inversion Hl as [|? ? Ha Hl']; subst.
  rewrite (proj2 (forallb_forall _ l)); [done|].
  intros b Hb. apply Nat.eqb_eq.
  rewrite Forall_forall in Hl'. apply Hl'. by apply list_elem_of_In.
Qed.

Lemma np_stack_Ok {A} (l : list (list A)) (c : nat) :
  l ≠ [] → Forall (λ v, length v = c) l → np_stack l = Ok (Arr2 c l).
Proof.
  intros Hne Hl. destruct l as [|a l]; [done|]. simpl.
  inversion Hl as [|? ? Ha Hl']; subst.
  rewrite (proj2 (forallb_forall _ l)); [done|].
  intros b Hb. apply Nat.eqb_eq.
  rewrite Forall_forall in Hl'. apply Hl'. by apply list_elem_of_In.
Qed.

(** What [collate_fn] returns for molecules of one shape. *)
Lemma collate_fn_Ok batch (k : nat) :
  batch ≠ [] → Forall MoleculeGraph batch →
  Forall (λ item, length (y item) = k) batch →
  ∃ b, collate_fn batch = Ok b ∧
    b_ptr b = wrap32 <$> c_ptr (collate_loop collate_init 0 batch) ∧
    b_edge_index b = concat (c_edge_index_batch (collate_loop collate_init 0 batch)) ∧
    rows (b_pos b) = concat (rows ∘ pos <$> batch) ∧
    rows (b_x b) = concat (rows ∘ x <$> batch) ∧
    b_y b = Arr2 k (y <$> batch).
Proof.
  intros Hne Hwf Hy. unfold collate_fn.
  destruct (collate_loop_arrays collate_init 0 batch) as (Hp & Hx & Hyy & Ha & _).
  simpl in Hp, Hx, Hyy, Ha. rewrite Hp, Hx, Hyy, Ha.
  assert (Hne' : ∀ {B} (f : Item F F → B), f <$> batch ≠ []).
  { intros B f. by destruct batch. }
  rewrite (np_concatenate0_Ok (pos <$> batch) 3); [|done|].
  2: { apply Forall_fmap. eapply Forall_impl; [exact Hwf|].
       intros it Hit. simpl. apply Hit. }
  simpl. rewrite (np_concatenate0_Ok (x <$> batch) 5); [|done|].
  2: { apply Forall_fmap. eapply Forall_impl; [exact Hwf|].
       intros it Hit. simpl. apply Hit. }
  simpl. rewrite (np_stack_Ok _ k); [|done|by apply Forall_fmap].
  simpl. unfold np_concatenate1.
  destruct (c_edge_index_batch (collate_loop collate_init 0 batch)) as [|e0 es] eqn:He.
  { pose proof (collate_loop_edge_batches collate_init 0 batch) as Hl.
    rewrite He in Hl. destruct batch; [done|]. simpl in Hl. lia. }
  simpl. rewrite (np_concatenate0_Ok (edge_attr <$> batch) 4); [|done|].
  2: { apply Forall_fmap. eapply Forall_impl; [exact Hwf|].
       intros it Hit. simpl. apply Hit. }
  simpl. eexists. split; [done|]. simpl.
  by rewrite <- !list_fmap_compose.
Qed.
End CollateTheorems.

Lemma cumulative_sums_in_int32 (n : list Z) :
  Forall (λ a, 0 ≤ a) n → sum_Z n < 2 ^ 31 →
  wrap32 <$> cumulative_sums n = cumulative_sums n.
Proof.
  intros Hn Hsum. unfold cumulative_sums.
  rewrite <- list_fmap_compose. apply list_fmap_ext. intros _ k _. simpl.
  apply wrap32_id. pose proof (sum_Z_take_le n k Hn). unfold in_int32. lia.
Qed.

(** C5. For a non-empty list of [B] molecule graphs of one target length
    whose atoms number less than [2 ^ 31] in total, [collate_fn] returns a
    batch; its [ptr] is [[0, n0, n0 + n1, ..., sum n]] for the atom counts
    [n_i], [B + 1] entries; both atoms of every edge of the batch lie in
    [[0, sum n)]. *)
Theorem C5_collate_boundaries_and_edges {F} (batch : list (Item F F)) (k : nat) :
  batch ≠ [] →
  Forall MoleculeGraph batch →
  Forall (λ item, length (y item) = k) batch →
  sum_Z (atom_counts batch) < 2 ^ 31 →
  ∃ b, collate_fn batch = Ok b ∧
    b_ptr b = cumulative_sums (atom_counts batch) ∧
    length (b_ptr b) = S (length batch) ∧
    ∀ e, e ∈ b_edge_index b →
      0 ≤ e.1 < sum_Z (atom_counts batch) ∧ 0 ≤ e.2 < sum_Z (atom_counts batch).
Proof.
  intros Hne Hwf Hy Hsum.
  destruct (collate_fn_Ok batch k Hne Hwf Hy) as (b & Hb & Hptr & Hedges & _).
  exists b. split; [done|].
  assert (Hcs : b_ptr b = cumulative_sums (atom_counts batch)).
  { rewrite Hptr, collate_loop_ptr. simpl.
    rewrite <- (cumulative_sums_in_int32 (atom_counts batch))
      by (apply atom_counts_nonneg || done).
    unfold cumulative_sums, atom_counts. rewrite length_fmap. simpl. done. }
  split_and!.
  - done.
  - rewrite Hcs. unfold cumulative_sums, atom_counts.
    by rewrite length_fmap, length_seq, length_fmap.
  - intros e He. rewrite Hedges in He.
    apply (collate_loop_edges _ _ _ _ Hwf) in He as [He|He].
    + simpl in He. by apply elem_of_nil in He.
    + simpl in He. lia.
Qed.

Lemma sample_batch_MoleculeGraph : Forall MoleculeGraph sample_batch.
Proof.
  unfold sample_batch. simpl.
  constructor; [|constructor; [|constructor]];
    (unfold MoleculeGraph; split_and!; [reflexivity..|];
     intros e He; simpl in He;
     repeat (apply elem_of_cons in He as [->|He]; [by compute|]);
     by apply elem_of_nil in He).
Defined.

Lemma C5_collate_boundaries_and_edges_witness :
  ∃ b, collate_fn sample_batch = Ok b ∧
    b_ptr b = [0; 3; 6] ∧
    length (b_ptr b) = 3%nat ∧
    ∀ e, e ∈ b_edge_index b → 0 ≤ e.1 < 6 ∧ 0 ≤ e.2 < 6.
Proof.
  apply (C5_collate_boundaries_and_edges sample_batch 19).
  - discriminate.
  - exact sample_batch_MoleculeGraph.
  - repeat constructor.
  - reflexivity.
Defined.

(* --------------------------------------------------------------------- *)
(** *** The padding transform *)

(** A count within the reserved size is padded by a non-negative width. *)
Lemma int_pad_nonneg (m n : Z) : n ≤ reserved_size m → 0 ≤ int_pad m n.
Proof.
  unfold reserved_size, int_pad. Z.to_euclidean_division_equations. lia.
Qed.

(** The width is negative exactly from [0.8 * m + 2] on. *)
Lemma int_pad_neg_iff (m n : Z) : int_pad m n < 0 ↔ 4 * m + 10 ≤ 5 * n.
Proof.
  unfold int_pad. Z.to_euclidean_division_equations. lia.
Qed.

Lemma int_pad_neg (m n : Z) : reserved_size m + 1 < n → int_pad m n < 0.
Proof.
  unfold reserved_size, int_pad. Z.to_euclidean_division_equations. lia.
Qed.

(** A count within the reserved size is padded up to the reserved size. *)
Lemma int_pad_fills (m n : Z) :
  0 ≤ m → n ≤ reserved_size m → n + int_pad m n = reserved_size m.
Proof.
  unfold reserved_size, int_pad. Z.to_euclidean_division_equations. lia.
Qed.

Lemma foldr_max_spec (a : Z) (l : list Z) :
  foldr Z.max a l ∈ a :: l ∧ ∀ b, b ∈ a :: l → b ≤ foldr Z.max a l.
Proof.
  induction l as [|c l [IHin IHle]]; simpl.
  - split; [left|]. intros b Hb. apply list_elem_of_singleton in Hb. lia.
  - split.
    + destruct (Z.max_spec c (foldr Z.max a l)) as [[_ ->]|[_ ->]].
      * apply elem_of_cons in IHin as [->|Hin]; [left|right; by right].
      * right; left.
    + intros b Hb.
      assert (b = c ∨ b ∈ a :: l) as [->|Hb'].
      { apply elem_of_cons in Hb as [->|Hb]; [right; left|].
        apply elem_of_cons in Hb as [->|Hb]; [by left|right; by right]. }
      * lia.
      * specialize (IHle b Hb'). lia.
Qed.

Lemma jnp_max_Ok (l : list Z) (m : Z) :
  jnp_max l = Ok m → m ∈ l ∧ ∀ b, b ∈ l → b ≤ m.
Proof.
  destruct l as [|a l]; simpl; [done|]. intros [= <-]. apply foldr_max_spec.
Qed.

Lemma as_int32_length (e : list (Z * Z)) : length (as_int32 e) = length e.
Proof. apply length_fmap. Qed.

Lemma as_int32_id (e : list (Z * Z)) :
  Forall (λ uv, in_int32 uv.1 ∧ in_int32 uv.2) e → as_int32 e = e.
Proof.
  intros He. unfold as_int32. rewrite <- (list_fmap_id e) at 2.
  apply Forall_fmap_ext_1. eapply Forall_impl; [exact He|].
  intros [u v] [Hu Hv]. simpl in *. by rewrite !wrap32_id.
Qed.

Section TransformTheorems.
Context {F : Type} `{Float32 F}.

(** What a padded graph is made of, when [_qm9_transform] returns one. *)
Lemma qm9_transform_inv (max_batch_nodes max_batch_edges : Z) (data : Batch F) g :
  _qm9_transform max_batch_nodes max_batch_edges data = Ok g →
  let n_node_pad := int_pad max_batch_nodes (Z.of_nat (nrows (b_x data))) in
  let n_edge_pad :=
    int_pad max_batch_edges (Z.of_nat (length (b_edge_index data))) in
  let edge_index := as_int32 (b_edge_index data) in
  0 ≤ n_node_pad ∧ 0 ≤ n_edge_pad ∧
  ∃ m gi,
    jnp_max (edge_index.*1 ++ edge_index.*2) = Ok m ∧
    jnp_last (wrap32 <$> b_batch data) = Ok gi ∧
    rows (g_pos g) = rows (b_pos data) ++
      replicate (Z.to_nat n_node_pad) (replicate (ncols (b_pos data)) f0) ∧
    rows (g_x g) = rows (b_x data) ++
      replicate (Z.to_nat n_node_pad) (replicate (ncols (b_x data)) f0) ∧
    g_edge_index g = edge_index ++
      replicate (Z.to_nat n_edge_pad) (wrap32 (m + 1), wrap32 (m + 1)) ∧
    rows (g_edge_attr g) = rows (b_edge_attr data) ++
      replicate (Z.to_nat n_edge_pad) (replicate (ncols (b_edge_attr data)) f0) ∧
    g_graph_index g = (wrap32 <$> b_batch data) ++
      replicate (Z.to_nat n_node_pad) (wrap32 (gi + 1)) ∧
    g_y g = concat (rows (b_y data)) ++ [f0] ∧
    g_padding_mask g = ((λ _, f1) <$> concat (rows (b_y data))) ++ [f0].
Proof.
  unfold _qm9_transform. rewrite as_int32_length.
  set (n_node_pad := int_pad max_batch_nodes _).
  set (n_edge_pad := int_pad max_batch_edges _).
  unfold jnp_pad_rows, jnp_pad_cols.
  destruct (decide (n_node_pad < 0)); simpl; [done|].
  destruct (jnp_max _) as [m|]; simpl; [|done].
  destruct (decide (n_edge_pad < 0)); simpl; [done|].
  destruct (jnp_last _) as [gi|]; simpl; [|done].
  intros [= <-]. simpl. split; [lia|]. split; [lia|].
  exists m, gi. by split_and!.
Qed.

(** A negative pad width stops [_qm9_transform] in a call of [jnp.pad]
    (or, for an empty edge array, in [max]). *)
Lemma qm9_transform_negative_pad (max_batch_nodes max_batch_edges : Z)
    (data : Batch F) :
  int_pad max_batch_nodes (Z.of_nat (nrows (b_x data))) < 0 ∨
  int_pad max_batch_edges (Z.of_nat (length (b_edge_index data))) < 0 →
  _qm9_transform max_batch_nodes max_batch_edges data = Raise ValueError.
Proof.
  unfold _qm9_transform. rewrite as_int32_length.
  set (n_node_pad := int_pad max_batch_nodes _).
  set (n_edge_pad := int_pad max_batch_edges _).
  unfold jnp_pad_rows, jnp_pad_cols. intros Hneg.
  destruct (decide (n_node_pad < 0)); simpl; [done|].
  destruct (jnp_max _) as [m|e] eqn:Hm; simpl.
  - destruct (decide (n_edge_pad < 0)); [reflexivity|lia].
  - unfold jnp_max in Hm. destruct (_ ++ _); by simplify_eq.
Qed.

(** Within capacity, a batch with an edge and an atom is padded. *)
Lemma qm9_transform_total (max_batch_nodes max_batch_edges : Z) (data : Batch F) :
  Z.of_nat (nrows (b_x data)) ≤ reserved_size max_batch_nodes →
  Z.of_nat (length (b_edge_index data)) ≤ reserved_size max_batch_edges →
  b_edge_index data ≠ [] → b_batch data ≠ [] →
  is_Ok (_qm9_transform max_batch_nodes max_batch_edges data) = true.
Proof.
  intros Hn He Hedge Hbatch. apply int_pad_nonneg in Hn, He.
  unfold _qm9_transform. rewrite as_int32_length.
  unfold jnp_pad_rows, jnp_pad_cols.
  repeat (case_decide; [lia|]). simpl.
  destruct (b_edge_index data) as [|e0 es] eqn:Hes; [done|]. simpl.
  destruct (b_batch data) as [|g0 gs] eqn:Hgs; [done|].
  unfold jnp_last. rewrite fmap_last.
  destruct (last (g0 :: gs)) eqn:Hl; [done|].
  by apply last_None in Hl.
Qed.
End TransformTheorems.

Lemma sample_collated_built : collate_fn sample_batch = Ok sample_collated.
Proof. vm_compute. reflexivity. Qed.

Lemma lone_collated_built :
  (data_list ← process [sample_row] ∅ [Some lone_atom_mol];
   collate_fn (dataset_to_pytorch data_list)) = Ok lone_collated.
Proof. vm_compute. reflexivity. Qed.

Lemma fmap_const_replicate {A B} (b : B) (l : list A) :
  (λ _, b) <$> l = replicate (length l) b.
Proof. induction l as [|a l IH]; simpl; [done|]. by rewrite <- IH. Qed.

(** Six atoms against [max_batch_nodes = 6]: the reserved size is
    [int(4.8) + 1 = 5], the pad width [int(-0.2) = 0], and the batch is
    returned with its six atom rows. *)
Lemma C1_counterexample :
  reserved_size 6 < Z.of_nat (nrows (b_x sample_collated)) ∧
  int_pad 6 (Z.of_nat (nrows (b_x sample_collated))) = 0 ∧
  is_Ok (_qm9_transform 6 20 sample_collated) = true ∧
  ¬ (∃ e, _qm9_transform 6 20 sample_collated = Raise e).
Proof.
  split_and!; [reflexivity..|].
  intros [e He]. vm_compute in He. discriminate.
Qed.

(** C1 (amended). A batch whose atom count exceeds
    [int(0.8 * max_batch_nodes) + 2] or whose edge count exceeds
    [int(0.8 * max_batch_edges) + 2], and more generally any batch for
    which a pad width [int(0.8 * max - n + 1)] is negative, makes
    [_qm9_transform] fail with the [ValueError] of the padding call; and a
    padded graph that is returned starts with all the rows, edges, graph
    indexes and targets of the batch: nothing is cropped. *)
Theorem C1_negative_pad_fails_nothing_cropped {F} `{Float32 F}
    (max_batch_nodes max_batch_edges : Z) (data : Batch F) :
  let n_nodes := Z.of_nat (nrows (b_x data)) in
  let n_edges := Z.of_nat (length (b_edge_index data)) in
  (reserved_size max_batch_nodes + 1 < n_nodes ∨
   reserved_size max_batch_edges + 1 < n_edges →
   _qm9_transform max_batch_nodes max_batch_edges data = Raise ValueError) ∧
  (int_pad max_batch_nodes n_nodes < 0 ∨ int_pad max_batch_edges n_edges < 0 →
   _qm9_transform max_batch_nodes max_batch_edges data = Raise ValueError) ∧
  (∀ g, _qm9_transform max_batch_nodes max_batch_edges data = Ok g →
     rows (b_pos data) `prefix_of` rows (g_pos g) ∧
     rows (b_x data) `prefix_of` rows (g_x g) ∧
     as_int32 (b_edge_index data) `prefix_of` g_edge_index g ∧
     rows (b_edge_attr data) `prefix_of` rows (g_edge_attr g) ∧
     (wrap32 <$> b_batch data) `prefix_of` g_graph_index g ∧
     concat (rows (b_y data)) `prefix_of` g_y g).
Proof.
  intros n_nodes n_edges. split_and!.
  - intros [Hn|He]; apply qm9_transform_negative_pad;
      [left|right]; by apply int_pad_neg.
  - apply qm9_transform_negative_pad.
  - intros g Hg. apply qm9_transform_inv in Hg
      as (_ & _ & m & gi & _ & _ & -> & -> & -> & -> & -> & -> & _).
    split_and!; by eexists.
Qed.

Lemma C1_negative_pad_fails_nothing_cropped_witness :
  _qm9_transform 2 20 sample_collated = Raise ValueError.
Proof.
  apply (proj1 (C1_negative_pad_fails_nothing_cropped 2 20 sample_collated)).
  left. reflexivity.
Defined.

(** The last atom of [lone_collated] has no bond: the largest id in the
    edge array is 1, the padding columns hold 2, and 2 is the id of the
    third atom. *)
Lemma C2_counterexample :
  nrows (b_x lone_collated) = 3%nat ∧
  ∃ g, _qm9_transform 10 10 lone_collated = Ok g ∧
       g_edge_index g = b_edge_index lone_collated ++ replicate 7 (2, 2) ∧
       ¬ (∀ a, 0 ≤ a < Z.of_nat (nrows (b_x lone_collated)) → a < 2) ∧
       (2, 2) ≠ (Z.of_nat (nrows (b_x lone_collated)) - 1 + 1,
                 Z.of_nat (nrows (b_x lone_collated)) - 1 + 1).
Proof.
  split; [reflexivity|]. eexists. split; [vm_compute; reflexivity|].
  split_and!; [reflexivity| |discriminate].
  intros Hall. assert (2 < 2) as Habs by (apply Hall; by compute). lia.
Qed.

(** C2 (amended). For a batch within capacity whose edge ids fit int32,
    every column that [_qm9_transform] appends to the edge-id array holds
    one plus the largest atom id that occurs in the edge-id array of the
    batch, which is strictly greater than every atom id of a real edge;
    when the last atom of the batch has an edge, this is one plus the
    largest atom id of the batch. *)
Theorem C2_padding_edges_past_real_edges {F} `{Float32 F}
    (max_batch_nodes max_batch_edges : Z) (data : Batch F) g :
  let ids := (b_edge_index data).*1 ++ (b_edge_index data).*2 in
  let n_nodes := Z.of_nat (nrows (b_x data)) in
  let n_edges := Z.of_nat (length (b_edge_index data)) in
  _qm9_transform max_batch_nodes max_batch_edges data = Ok g →
  Forall (λ a, 0 ≤ a < 2 ^ 31 - 1) ids →
  ∃ m, m ∈ ids ∧ (∀ a, a ∈ ids → a ≤ m) ∧
    g_edge_index g = b_edge_index data ++
      replicate (Z.to_nat (int_pad max_batch_edges n_edges)) (m + 1, m + 1) ∧
    (∀ e, e ∈ b_edge_index data → e.1 < m + 1 ∧ e.2 < m + 1) ∧
    ((∀ a, a ∈ ids → a < n_nodes) → n_nodes - 1 ∈ ids → m + 1 = n_nodes).
Proof.
  intros ids n_nodes n_edges Hg Hids.
  apply qm9_transform_inv in Hg
    as (_ & _ & m & gi & Hm & _ & _ & _ & He & _).
  assert (Hcast : as_int32 (b_edge_index data) = b_edge_index data).
  { apply as_int32_id. apply Forall_forall. intros [u v] Huv.
    rewrite Forall_forall in Hids. unfold in_int32. simpl.
    assert (u ∈ ids) as Hu by (apply elem_of_app; left;
      apply list_elem_of_fmap; by exists (u, v)).
    assert (v ∈ ids) as Hv by (apply elem_of_app; right;
      apply list_elem_of_fmap; by exists (u, v)).
    pose proof (Hids u Hu). pose proof (Hids v Hv). lia. }
  rewrite Hcast in Hm, He. fold ids in Hm.
  apply jnp_max_Ok in Hm as [Hmin Hmle].
  exists m. split_and!; try done.
  - rewrite He. rewrite wrap32_id; [done|].
    rewrite Forall_forall in Hids. pose proof (Hids m Hmin).
    unfold in_int32. lia.
  - intros [u v] Huv. simpl.
    assert (u ≤ m).
    { apply Hmle. apply elem_of_app; left.
      apply list_elem_of_fmap; by exists (u, v). }
    assert (v ≤ m).
    { apply Hmle. apply elem_of_app; right.
      apply list_elem_of_fmap; by exists (u, v). }
    lia.
  - intros Hlt Hlast. pose proof (Hlt m Hmin). pose proof (Hmle _ Hlast). lia.
Qed.

Lemma C2_padding_edges_past_real_edges_witness :
  ∃ g m, _qm9_transform 10 20 sample_collated = Ok g ∧
    g_edge_index g = b_edge_index sample_collated ++ replicate 9 (m + 1, m + 1) ∧
    m + 1 = 6.
Proof.
  assert (is_Ok (_qm9_transform 10 20 sample_collated) = true) as Hok
    by reflexivity.
  destruct (_qm9_transform 10 20 sample_collated) as [g|] eqn:Hg; [|discriminate].
  destruct (C2_padding_edges_past_real_edges 10 20 sample_collated g Hg)
    as (m & Hin & _ & He & _ & Hn).
  - repeat constructor; by compute.
  - exists g, m. split; [reflexivity|]. split; [exact He|].
    apply Hn.
    + intros a Ha. simpl in Ha.
      repeat (apply elem_of_cons in Ha as [->|Ha]; [by compute|]).
      by apply elem_of_nil in Ha.
    + simpl. do 6 right. left.
Defined.

(** C8. In every padded graph that [_qm9_transform] returns, [y] is the
    stacked targets of the batch, flattened, followed by one zero, and
    [padding_mask] is a one for each of these targets followed by one
    zero: as long as [y], zero at the last position and nowhere else. *)
Theorem C8_one_masked_target {F} `{Float32 F}
    (max_batch_nodes max_batch_edges : Z) (data : Batch F) g :
  let real := concat (rows (b_y data)) in
  _qm9_transform max_batch_nodes max_batch_edges data = Ok g →
  g_y g = real ++ [f0] ∧
  g_padding_mask g = replicate (length real) f1 ++ [f0] ∧
  length (g_padding_mask g) = length (g_y g) ∧
  last (g_padding_mask g) = Some f0 ∧
  ∀ j v, g_padding_mask g !! j = Some v → (v = f0 ↔ j = length real).
Proof.
  intros real Hg.
  apply qm9_transform_inv in Hg
    as (_ & _ & m & gi & _ & _ & _ & _ & _ & _ & _ & Hy & Hmask).
  fold real in Hy, Hmask. rewrite fmap_const_replicate in Hmask.
  rewrite Hy, Hmask. split_and!; try done.
  - by rewrite !length_app, length_replicate.
  - by rewrite last_snoc.
  - intros j v Hj.
    destruct (decide (j < length real)%nat) as [Hlt|Hge].
    + rewrite lookup_app_l in Hj by (by rewrite length_replicate).
      apply lookup_replicate in Hj as [-> _].
      split; [intros Heq; by apply f1_ne_f0 in Heq|lia].
    + rewrite lookup_app_r in Hj by (rewrite length_replicate; lia).
      rewrite length_replicate in Hj.
      destruct (j - length real)%nat as [|k] eqn:Hk; simpl in Hj; [|done].
      simplify_eq. split; [lia|done].
Qed.

Lemma C8_one_masked_target_witness :
  ∃ g, _qm9_transform 10 20 sample_collated = Ok g ∧
    g_padding_mask g = replicate 38 1%Q ++ [0%Q] ∧
    last (g_padding_mask g) = Some 0%Q.
Proof.
  assert (is_Ok (_qm9_transform 10 20 sample_collated) = true) as Hok
    by reflexivity.
  destruct (_qm9_transform 10 20 sample_collated) as [g|] eqn:Hg; [|discriminate].
  destruct (C8_one_masked_target 10 20 sample_collated g Hg)
    as (_ & Hmask & _ & Hlast & _).
  exists g. split; [reflexivity|]. split; [exact Hmask|exact Hlast].
Defined.

(* ===================================================================== *)
(** ** Further properties of the module *)

(* --------------------------------------------------------------------- *)
(** *** [process]: atoms, bonds, provenance, failures *)

Lemma mapM_result_Forall2 {A B} (f : A → result B) (l : list A) (k : list B) :
  mapM f l = Ok k → Forall2 (λ a b, f a = Ok b) l k.
Proof.
  revert k. induction l as [|a l IH]; intros k; simpl.
  - intros [= <-]. constructor.
  - destruct (f a) as [b|] eqn:Hfa; simpl; [|done].
    destruct (mapM f l) as [k'|]; simpl; [|done].
    intros [= <-]. constructor; [done|]. by apply IH.
Qed.

Lemma atom_types_values (z : Z) (k : nat) :
  atom_types !! z = Some k → (k < 5)%nat.
Proof.
  unfold atom_types. intros Hz.
  repeat (apply lookup_insert_Some in Hz as [[_ <-]|[_ Hz]]; [lia|]).
  by rewrite lookup_empty in Hz.
Qed.

Lemma one_hot_insert (k n : nat) :
  (k < n)%nat → one_hot_at k (<[k := true]> (replicate n false)).
Proof.
  intros Hk c. split.
  - intros Hc. destruct (decide (c = k)) as [|Hne]; [done|].
    rewrite list_lookup_insert_ne in Hc by done.
    by apply lookup_replicate in Hc as [? _].
  - intros ->. apply list_lookup_insert_eq. by rewrite length_replicate.
Qed.

Section ProcessExtras.
Context {F : Type} `{Float32 F}.

Lemma process_mol_fields (targets : list (list F)) (i : nat) (mol : Mol F) item :
  process_mol targets i mol = Ok item →
  pos item = Arr2 3 (pos_row <$> GetAtoms mol) ∧
  ncols (x item) = 5%nat ∧
  mapM atom_row (GetAtoms mol) = Ok (rows (x item)) ∧
  ncols (edge_attr item) = 4%nat ∧
  name item = GetProp_Name mol ∧ smiles item = MolToSmiles mol.
Proof.
  unfold process_mol.
  destruct (mapM atom_row _) as [xr|]; simpl; [|done].
  destruct (list_get targets i) as [yv|]; simpl; [|done].
  destruct (sort_edges _ _) as [[e' t']|]; simpl; [|done].
  by intros [= <-].
Qed.

Lemma process_elem_mol (raw : list (list F)) (skip : gset Z)
    (suppl : list (option (Mol F))) data_list item :
  process raw skip suppl = Ok data_list → item ∈ data_list →
  ∃ targets mol, process_targets raw = Ok targets ∧
    suppl !! idx item = Some (Some mol) ∧
    process_mol targets (idx item) mol = Ok item.
Proof.
  unfold process. intros Hp Hin. apply bind_Ok in Hp as (targets & Ht & Hp).
  destruct (process_loop_elem _ _ _ _ _ _ Hp Hin) as (mol & _ & Hl & Hm).
  rewrite Nat.sub_0_r in Hl. by exists targets, mol.
Qed.

(** X1. In every entry of the corpus, [x] has one row of five columns per
    atom of the record, and the row of an atom holds [True] in the column
    that [atom_types] gives for its atomic number and [False] elsewhere;
    [pos] has the three coordinates of the atom in the same row. *)
Theorem X1_atom_rows_one_hot (raw : list (list F)) (skip : gset Z)
    (suppl : list (option (Mol F))) data_list item :
  process raw skip suppl = Ok data_list → item ∈ data_list →
  ∃ mol, suppl !! idx item = Some (Some mol) ∧
    ncols (x item) = 5%nat ∧
    nrows (x item) = length (GetAtoms mol) ∧
    nrows (pos item) = length (GetAtoms mol) ∧
    ∀ j a, GetAtoms mol !! j = Some a →
      ∃ k row, atom_types !! GetAtomicNum a = Some k ∧
        rows (x item) !! j = Some row ∧ length row = 5%nat ∧
        one_hot_at k row ∧
        rows (pos item) !! j = Some (pos_row a).
Proof.
  intros Hp Hin.
  destruct (process_elem_mol _ _ _ _ _ Hp Hin) as (targets & mol & _ & Hl & Hm).
  destruct (process_mol_fields _ _ _ _ Hm) as (Hpos & Hnc & Hx & _).
  exists mol. split_and!; try done.
  - unfold nrows. by apply mapM_result_length in Hx.
  - rewrite Hpos. unfold nrows. simpl. by rewrite length_fmap.
  - intros j a Ha. apply mapM_result_Forall2 in Hx.
    destruct (Forall2_lookup_l _ _ _ _ _ Hx Ha) as (row & Hrow & Har).
    unfold atom_row, dict_get in Har.
    destruct (atom_types !! GetAtomicNum a) as [k|] eqn:Hk; simpl in Har; [|done].
    simplify_eq. pose proof (atom_types_values _ _ Hk) as Hk5.
    eexists k, _. split_and!; try done.
    + by rewrite length_insert, length_replicate.
    + by apply one_hot_insert.
    + rewrite Hpos. simpl. by rewrite list_lookup_fmap, Ha.
Qed.
End ProcessExtras.

Lemma X1_atom_rows_one_hot_witness :
  ∃ mol, [Some sample_mol] !! idx sample_item = Some (Some mol) ∧
    ncols (x sample_item) = 5%nat ∧
    nrows (x sample_item) = length (GetAtoms mol) ∧
    nrows (pos sample_item) = length (GetAtoms mol) ∧
    ∀ j a, GetAtoms mol !! j = Some a →
      ∃ k row, atom_types !! GetAtomicNum a = Some k ∧
        rows (x sample_item) !! j = Some row ∧ length row = 5%nat ∧
        one_hot_at k row ∧
        rows (pos sample_item) !! j = Some (pos_row a).
Proof.
  apply (X1_atom_rows_one_hot [sample_row] ∅ [Some sample_mol] [sample_item]).
  - vm_compute. reflexivity.
  - left.
Defined.

(** Before the sort, the edge and the feature row at one position come
    from one bond. *)
Lemma edges_from_bond (bonds : list Bond) (p : nat) (e : Z * Z) (t : list bool) :
  edge_indices bonds !! p = Some e → edge_attrs bonds !! p = Some t →
  ∃ b, b ∈ bonds ∧ t = bond_type (GetBondType b) ∧
    (e = (Z.of_nat (GetBeginAtomIdx b), Z.of_nat (GetEndAtomIdx b)) ∨
     e = (Z.of_nat (GetEndAtomIdx b), Z.of_nat (GetBeginAtomIdx b))).
Proof.
  revert p. induction bonds as [|b bonds IH]; intros p He Ht; [done|].
  unfold edge_indices, edge_attrs in *.
  rewrite bind_cons in He. rewrite bind_cons in Ht.
  destruct p as [|[|p]]; simpl in *.
  - exists b. simplify_eq. split_and!; [left|done|by left].
  - exists b. simplify_eq. split_and!; [left|done|by right].
  - destruct (IH p He Ht) as (b' & Hb' & Hrest).
    exists b'. split; [by right|done].
Qed.

Lemma bond_type_row (t : BondType) :
  length (bond_type t) = 4%nat ∧
  match t with
  | SINGLE => one_hot_at 0 (bond_type t)
  | DOUBLE => one_hot_at 1 (bond_type t)
  | TRIPLE => one_hot_at 2 (bond_type t)
  | AROMATIC => one_hot_at 3 (bond_type t)
  | OTHER_BOND => ∀ c, bond_type t !! c ≠ Some true
  end.
Proof.
  split; [by destruct t|].
  destruct t; try (apply (one_hot_insert _ 4); lia).
  intros c Hc. by apply lookup_replicate in Hc as [? _].
Qed.

Section ProcessExtras2.
Context {F : Type} `{Float32 F}.

(** X2. In every entry of the corpus the record has a bond, [edge_index]
    and [edge_attr] have two entries per bond, and row [k] of [edge_attr]
    belongs to the bond that edge [k] comes from: four columns that are
    one-hot at 0, 1, 2, 3 for a single, double, triple, aromatic bond and
    all [False] for a bond of any other type. *)
Theorem X2_bond_rows (raw : list (list F)) (skip : gset Z)
    (suppl : list (option (Mol F))) data_list item :
  process raw skip suppl = Ok data_list → item ∈ data_list →
  ∃ mol, suppl !! idx item = Some (Some mol) ∧
    GetBonds mol ≠ [] ∧
    length (edge_index item) = (2 * length (GetBonds mol))%nat ∧
    nrows (edge_attr item) = (2 * length (GetBonds mol))%nat ∧
    ncols (edge_attr item) = 4%nat ∧
    ∀ k row, rows (edge_attr item) !! k = Some row →
      ∃ b, b ∈ GetBonds mol ∧
        (edge_index item !! k =
           Some (Z.of_nat (GetBeginAtomIdx b), Z.of_nat (GetEndAtomIdx b)) ∨
         edge_index item !! k =
           Some (Z.of_nat (GetEndAtomIdx b), Z.of_nat (GetBeginAtomIdx b))) ∧
        length row = 4%nat ∧
        match GetBondType b with
        | SINGLE => one_hot_at 0 row
        | DOUBLE => one_hot_at 1 row
        | TRIPLE => one_hot_at 2 row
        | AROMATIC => one_hot_at 3 row
        | OTHER_BOND => ∀ c, row !! c ≠ Some true
        end.
Proof.
  intros Hp Hin.
  destruct (process_elem_mol _ _ _ _ _ Hp Hin) as (targets & mol & _ & Hl & Hm).
  destruct (process_mol_fields _ _ _ _ Hm) as (_ & _ & _ & Hnc & _).
  destruct (process_mol_inv _ _ _ _ Hm) as (_ & _ & Hs).
  destruct (sort_edges_inv _ _ _ _ Hs) as (Hne & _ & _).
  destruct (process_elem_sorted _ _ _ _ _ Hp Hin) as (mol' & Hl' & He & Ht).
  assert (mol' = mol) as -> by congruence. simpl in He, Ht.
  set (e := edge_indices (GetBonds mol)) in *.
  set (t := edge_attrs (GetBonds mol)) in *.
  set (p := lexsort (e.*1) (e.*2)) in *.
  assert (Hplen : length p = length e).
  { unfold p. by rewrite lexsort_Permutation, length_seq, length_fmap. }
  assert (Helen : length e = (2 * length (GetBonds mol))%nat)
    by apply edge_indices_length.
  assert (Htlen : length t = length e) by apply edge_attrs_length.
  exists mol. split_and!; try done.
  - intros Hb. apply Hne. unfold e. by rewrite Hb.
  - rewrite He, length_fmap. lia.
  - unfold nrows. rewrite Ht, length_fmap. lia.
  - intros k row Hrow. rewrite Ht, list_lookup_fmap in Hrow.
    destruct (p !! k) as [i|] eqn:Hpk; [|done]. simpl in Hrow.
    assert (Hi : (i < length e)%nat).
    { pose proof (lexsort_in_range (e.*1) (e.*2)) as Hr.
      rewrite length_fmap in Hr. rewrite Forall_forall in Hr.
      apply Hr. by eapply list_elem_of_lookup_2. }
    destruct (lookup_lt_is_Some_2 e i Hi) as [ei Hei].
    destruct (lookup_lt_is_Some_2 t i ltac:(lia)) as [ti Hti].
    rewrite (nth_lookup_Some _ _ _ _ Hti) in Hrow.
    injection Hrow as Hrow. subst row.
    destruct (edges_from_bond _ _ _ _ Hei Hti) as (b & Hb & Hty & Hedge).
    subst ti.
    exists b. rewrite He, list_lookup_fmap, Hpk. simpl.
    rewrite (nth_lookup_Some _ _ _ _ Hei).
    destruct (bond_type_row (GetBondType b)) as [Hlen Hhot].
    split_and!; try done. destruct Hedge as [-> | ->]; auto.
Qed.

End ProcessExtras2.

Lemma X2_bond_rows_witness :
  ∃ mol, [Some sample_mol] !! idx sample_item = Some (Some mol) ∧
    GetBonds mol ≠ [] ∧
    length (edge_index sample_item) = (2 * length (GetBonds mol))%nat.
Proof.
  destruct (X2_bond_rows [sample_row] ∅ [Some sample_mol] [sample_item] sample_item)
    as (mol & Hl & Hne & Hlen & _).
  - vm_compute. reflexivity.
  - left.
  - exists mol. split; [exact Hl|]. split; [exact Hne|exact Hlen].
Defined.


Section ProcessExtras3.
Context {F : Type} `{Float32 F}.

Lemma process_loop_positions (targets : list (list F)) (skip : gset Z) (i : nat)
    (suppl : list (option (Mol F))) data_list :
  process_loop targets skip i suppl = Ok data_list →
  idx <$> data_list =
    (filter (λ p, is_Some p.2 ∧ Z.of_nat p.1 ∉ skip)
       (zip (seq i (length suppl)) suppl)).*1.
Proof.
  revert i data_list. induction suppl as [|m suppl IH]; intros i dl; simpl.
  - by intros [= <-].
  - rewrite filter_cons. simpl. destruct m as [m|].
    + destruct (decide (Z.of_nat i ∈ skip)) as [Hi|Hi].
      * rewrite decide_False by (intros [_ ?]; done). apply IH.
      * rewrite decide_True by (split; [by eexists|done]).
        destruct (process_mol targets i m) as [it|] eqn:Hm; simpl; [|done].
        destruct (process_loop targets skip (S i) suppl) as [dl'|] eqn:Hdl;
          simpl; [|done].
        intros [= <-]. csimpl. f_equal; [|by apply IH].
        by destruct (process_mol_inv _ _ _ _ Hm) as (? & _).
    + rewrite decide_False by (intros [[? ?] _]; done). apply IH.
Qed.

Lemma process_loop_increasing (targets : list (list F)) (skip : gset Z) (i : nat)
    (suppl : list (option (Mol F))) data_list :
  process_loop targets skip i suppl = Ok data_list →
  StronglySorted lt (idx <$> data_list).
Proof.
  revert i data_list. induction suppl as [|m suppl IH]; intros i dl; simpl.
  - intros [= <-]. constructor.
  - destruct m as [m|]; [|apply IH].
    destruct (decide (Z.of_nat i ∈ skip)); [apply IH|].
    destruct (process_mol targets i m) as [it|] eqn:Hm; simpl; [|done].
    destruct (process_loop targets skip (S i) suppl) as [dl'|] eqn:Hdl;
      simpl; [|done].
    intros [= <-]. csimpl. constructor; [by eapply IH|].
    apply Forall_fmap, Forall_forall. intros it' Hit'. simpl.
    destruct (process_loop_elem _ _ _ _ _ _ Hdl Hit') as (_ & Hle & _).
    destruct (process_mol_inv _ _ _ _ Hm) as (-> & _). lia.
Qed.

(** X4. The corpus holds, in the order of the stream, one entry for every
    record that is parsable and not excluded and none for the others;
    [idx] is the position of the record in the stream (positions of
    skipped records are left out, so [idx] increases strictly but need
    not be the position in the corpus), and [y] is the row of the
    converted label table at position [idx]. *)
Theorem X4_corpus_positions (raw : list (list F)) (skip : gset Z)
    (suppl : list (option (Mol F))) data_list :
  process raw skip suppl = Ok data_list →
  idx <$> data_list = kept_positions skip suppl ∧
  StronglySorted lt (idx <$> data_list) ∧
  ∃ targets, process_targets raw = Ok targets ∧
    length targets = length raw ∧
    ∀ item, item ∈ data_list →
      targets !! idx item = Some (y item) ∧
      ∃ mol, suppl !! idx item = Some (Some mol) ∧
        (Z.of_nat (idx item) ∉ skip) ∧
        name item = GetProp_Name mol ∧ smiles item = MolToSmiles mol.
Proof.
  unfold process. intros Hp. apply bind_Ok in Hp as (targets & Ht & Hp).
  split_and!.
  - by apply process_loop_positions in Hp.
  - by eapply process_loop_increasing.
  - exists targets. split_and!; [done| |].
    { unfold process_targets in Ht. by apply mapM_result_length in Ht. }
    intros item Hin.
    destruct (process_loop_elem _ _ _ _ _ _ Hp Hin) as (mol & _ & Hl & Hm).
    rewrite Nat.sub_0_r in Hl.
    destruct (process_mol_inv _ _ _ _ Hm) as (_ & Hy & _).
    destruct (process_mol_fields _ _ _ _ Hm) as (_ & _ & _ & _ & Hn & Hs).
    split.
    + unfold list_get in Hy. destruct (targets !! idx item); by simplify_eq.
    + exists mol. split_and!; try done.
      pose proof (process_loop_positions _ _ _ _ _ Hp) as Hpos.
      assert (idx item ∈ (idx <$> data_list)) as Hi
        by (apply list_elem_of_fmap; eauto).
      rewrite Hpos in Hi. apply list_elem_of_fmap in Hi as ([j m] & Hj & Hf).
      apply list_elem_of_filter in Hf as [[_ Hns] _]. simpl in *. by subst.
Qed.

Lemma targets_row_cases (row : list F) :
  targets_row row = Raise ValueError ∨ is_Ok (targets_row row) = true.
Proof.
  unfold targets_row, np_mul_row. case_decide; [by right|].
  destruct (rearrange_row row) as [|a [|b l]]; simpl; auto.
Qed.

(** X5. A label table with a row that has neither 19 columns nor one
    makes [process] fail with [ValueError] before any record is read,
    whatever the stream holds. *)
Theorem X5_label_table_width (raw : list (list F)) (skip : gset Z)
    (suppl : list (option (Mol F))) (row : list F) :
  row ∈ raw → length row ≠ 19%nat → length row ≠ 1%nat →
  process raw skip suppl = Raise ValueError.
Proof.
  intros Hrow H19 H1. unfold process, process_targets.
  rewrite (mapM_result_Raise targets_row ValueError); [done| |].
  - intros r _. apply targets_row_cases.
  - exists row. split; [done|]. unfold targets_row, np_mul_row.
    rewrite rearrange_row_length, conversion_factors_length.
    rewrite decide_False by done.
    pose proof (rearrange_row_length row) as Hl.
    destruct (rearrange_row row) as [|a [|b l]]; simpl in *; (done || lia).
Qed.
End ProcessExtras3.

Lemma X4_corpus_positions_witness :
  idx <$> [sample_item] = kept_positions ∅ [Some sample_mol; None] ∧
  StronglySorted lt (idx <$> [sample_item]).
Proof.
  destruct (X4_corpus_positions [sample_row] ∅ [Some sample_mol; None]
              [sample_item]) as (Hk & Hs & _).
  - vm_compute. reflexivity.
  - split; [exact Hk|exact Hs].
Defined.

Lemma X5_label_table_width_witness :
  process [sample_row; [1%Q; 2%Q]] ∅ [Some sample_mol] = Raise ValueError.
Proof.
  apply (X5_label_table_width _ _ _ [1%Q; 2%Q]).
  - right. left.
  - discriminate.
  - discriminate.
Defined.

(* --------------------------------------------------------------------- *)
(** *** [apply_split] on a corpus *)

Lemma list_get_cases {A} (l : list A) (i : nat) :
  list_get l i = Raise IndexError ∨ is_Ok (list_get l i) = true.
Proof. unfold list_get. destruct (l !! i); auto. Qed.

(** Gathering fails as soon as one index is out of range. *)
Lemma np_take_IndexError {A} (l : list A) (idx : list nat) (i : nat) :
  i ∈ idx → (length l ≤ i)%nat → np_take l idx = Raise IndexError.
Proof.
  intros Hi Hle. apply mapM_result_Raise.
  - intros j _. apply list_get_cases.
  - exists i. split; [done|]. unfold list_get.
    by rewrite (proj2 (lookup_ge_None l i) Hle).
Qed.

Lemma qm9_sizes_sum_nat :
  (N.to_nat TRAIN_SIZE + N.to_nat VAL_SIZE + N.to_nat TEST_SIZE)%nat =
  N.to_nat TOTAL_SIZE.
Proof. rewrite <- !N2Nat.inj_add. f_equal. Qed.

Lemma qm9_total_positive : (0 < N.to_nat TOTAL_SIZE)%nat.
Proof. unfold TOTAL_SIZE. lia. Qed.

(** The three slices of a shuffled [0 .. T-1] select, together, the first
    [T] entries of a list that has them. *)
Lemma split_select {A} (perm : list nat) (T tr va te : nat) (data : list A) :
  (tr + va + te)%nat = T → perm ≡ₚ seq 0 T → (0 < T ≤ length data)%nat →
  ∃ train val test,
    np_take data (take tr perm) = Ok train ∧
    np_take data (py_slice tr (tr + va) perm) = Ok val ∧
    np_take data (drop (tr + va) perm) = Ok test ∧
    length train = tr ∧ length val = va ∧ length test = te ∧
    train ++ val ++ test ≡ₚ take T data.
Proof.
  intros Hsum Hperm [Hpos Hlen].
  assert (Happ : take tr perm ++ py_slice tr (tr + va) perm ++
                 drop (tr + va) perm = perm).
  { unfold py_slice. replace (tr + va - tr)%nat with va by lia.
    rewrite <- drop_drop, take_drop. apply take_drop. }
  assert (Hplen : length perm = T) by (by rewrite Hperm, length_seq).
  destruct data as [|d data]; [simpl in Hlen; lia|].
  set (dat := d :: data) in *. clearbody dat.
  assert (Hrange : Forall (λ i, (i < length dat)%nat) perm).
  { rewrite Hperm. apply Forall_forall.
    intros i Hi. apply elem_of_seq in Hi. lia. }
  rewrite <- Happ in Hrange.
  apply Forall_app in Hrange as [Hr1 Hr23].
  apply Forall_app in Hr23 as [Hr2 Hr3].
  eexists _, _, _.
  rewrite (np_take_Ok dat _ d Hr1), (np_take_Ok dat _ d Hr2),
    (np_take_Ok dat _ d Hr3).
  split_and!; try done.
  - rewrite length_fmap, length_take. lia.
  - unfold py_slice. rewrite length_fmap, length_take, length_drop. lia.
  - rewrite length_fmap, length_drop. lia.
  - rewrite <- !fmap_app, Happ, Hperm.
    rewrite <- (nth_seq_id (take T dat) d).
    rewrite length_take, Nat.min_l by done.
    enough (Heq : ((λ i, nth i dat d) <$> seq 0 T) =
                  ((λ i, nth i (take T dat) d) <$> seq 0 T)) by (by rewrite Heq).
    apply list_fmap_ext. intros k i Hi. simpl.
    apply lookup_seq in Hi as [Hik Hi]. simpl in Hik. subst i.
    rewrite !nth_lookup. by rewrite lookup_take_lt by lia.
Qed.

Section SplitExtras.
Variable permutation : Z → list nat → list nat.
Hypothesis permutation_shuffles : ∀ s l, permutation s l ≡ₚ l.

Local Abbreviation T := (N.to_nat TOTAL_SIZE).
Local Abbreviation Ttr := (N.to_nat TRAIN_SIZE).
Local Abbreviation Tva := (N.to_nat VAL_SIZE).
Local Abbreviation Tte := (N.to_nat TEST_SIZE).
Local Abbreviation perm42 := (permutation 42 (seq 0 T)).

Lemma apply_split_train {A} (data : list A) :
  apply_split permutation "train" data = np_take data (take Ttr perm42).
Proof. reflexivity. Qed.

Lemma apply_split_val {A} (data : list A) :
  apply_split permutation "val" data =
    np_take data (py_slice Ttr (Ttr + Tva) perm42).
Proof. reflexivity. Qed.

Lemma apply_split_test {A} (data : list A) :
  apply_split permutation "test" data = np_take data (drop (Ttr + Tva) perm42).
Proof. reflexivity. Qed.

Lemma apply_split_other {A} (split : string) (data : list A) :
  split ≠ "train"%string → split ≠ "val"%string → split ≠ "test"%string →
  apply_split permutation split data = Raise ValueError.
Proof.
  intros H1 H2 H3. unfold apply_split, split_blocks.
  destruct (decide (split = "train"%string)) as [?|_]; [done|].
  destruct (decide (split = "val"%string)) as [?|_]; [done|].
  destruct (decide (split = "test"%string)) as [?|_]; [done|].
  reflexivity.
Qed.

(** X6. On a corpus of at least [TOTAL_SIZE] entries the three subsets can
    all be built; they hold 110000, 10000 and 10831 entries and, put
    together, are a rearrangement of the first [TOTAL_SIZE] entries of
    the corpus: every such entry is in exactly one subset, and entries
    beyond that position are in none. *)
Theorem X6_splits_partition_corpus {A} (data : list A) :
  (T ≤ length data)%nat →
  ∃ train val test,
    apply_split permutation "train" data = Ok train ∧
    apply_split permutation "val" data = Ok val ∧
    apply_split permutation "test" data = Ok test ∧
    length train = Ttr ∧ length val = Tva ∧ length test = Tte ∧
    train ++ val ++ test ≡ₚ take T data.
Proof.
  intros Hlen. rewrite apply_split_train, apply_split_val, apply_split_test.
  apply (split_select perm42 T Ttr Tva Tte data).
  - exact qm9_sizes_sum_nat.
  - apply permutation_shuffles.
  - split; [exact qm9_total_positive|exact Hlen].
Qed.

(** X7. On a corpus of fewer than [TOTAL_SIZE] entries at least one of
    the three subsets cannot be built: [apply_split] fails for it with
    [IndexError].  A name other than the three fails with [ValueError]
    for every corpus. *)
Theorem X7_short_corpus_or_unknown_split {A} (data : list A) :
  ((length data < T)%nat →
   apply_split permutation "train" data = Raise IndexError ∨
   apply_split permutation "val" data = Raise IndexError ∨
   apply_split permutation "test" data = Raise IndexError) ∧
  (∀ split : string,
     split ≠ "train"%string → split ≠ "val"%string → split ≠ "test"%string →
     apply_split permutation split data = Raise ValueError).
Proof.
  split; [|intros split; apply apply_split_other].
  intros Hlen. rewrite apply_split_train, apply_split_val, apply_split_test.
  pose proof (split_blocks_app permutation 42 T Ttr Tva) as Happ.
  unfold split_blocks in Happ.
  assert (Hin : length data ∈ perm42).
  { rewrite permutation_shuffles. apply elem_of_seq. lia. }
  rewrite <- Happ in Hin.
  apply elem_of_app in Hin as [Hin|Hin]; [left|].
  { by apply (np_take_IndexError _ _ (length data)). }
  apply elem_of_app in Hin as [Hin|Hin]; [right; left|right; right];
    by apply (np_take_IndexError _ _ (length data)).
Qed.
End SplitExtras.

Lemma X6_splits_partition_corpus_witness :
  ∃ train val test : list unit,
    apply_split (λ _ l, l) "train" (replicate (N.to_nat TOTAL_SIZE) ()) = Ok train ∧
    length train = N.to_nat TRAIN_SIZE ∧
    length val = N.to_nat VAL_SIZE ∧ length test = N.to_nat TEST_SIZE.
Proof.
  destruct (X6_splits_partition_corpus (λ _ l, l) (λ _ l, reflexivity l)
              (replicate (N.to_nat TOTAL_SIZE) ()))
    as (train & val & test & H1 & _ & _ & Hl1 & Hl2 & Hl3 & _).
  - rewrite length_replicate. reflexivity.
  - exists train, val, test. by split_and!.
Defined.

Lemma X7_short_corpus_or_unknown_split_witness :
  apply_split (λ _ l, l) "train" [()] = Raise IndexError ∨
  apply_split (λ _ l, l) "val" [()] = Raise IndexError ∨
  apply_split (λ _ l, l) "test" [()] = Raise IndexError.
Proof.
  apply (X7_short_corpus_or_unknown_split (λ _ l, l) (λ _ l, reflexivity l) [()]).
  unfold TOTAL_SIZE. simpl length. lia.
Defined.

(* --------------------------------------------------------------------- *)
(** *** [__getitem__], [__len__] and the loop of [calc_stats] *)

Section GetitemExtras.
Context {F : Type}.
Implicit Types (self : QM9Dataset F) (item : Item F F).

Lemma set_y_same item : set_y item (y item) = item.
Proof. by destruct item. Qed.

Lemma getitem_spec self i :
  __getitem__ self i =
    loc ← py_index (length (data self)) i;
    item ← list_get (data self) loc;
    Ok (projected (target_index self) item,
        {| target_index := target_index self;
           data := <[loc := projected (target_index self) item]> (data self) |}).
Proof.
  unfold __getitem__. destruct (py_index _ i) as [loc|]; simpl; [|done].
  unfold list_get. destruct (data self !! loc) as [item|] eqn:Hl; simpl; [|done].
  destruct self as [ti dat]. unfold projected. simpl in *.
  destruct ti as [k|]; [case_decide|]; try done;
    by rewrite (list_insert_id _ _ _ Hl).
Qed.

Lemma getitem_Ok self i item' self' :
  __getitem__ self i = Ok (item', self') ↔
  ∃ loc item, py_index (length (data self)) i = Ok loc ∧
    data self !! loc = Some item ∧
    item' = projected (target_index self) item ∧
    self' = {| target_index := target_index self;
               data := <[loc := item']> (data self) |}.
Proof.
  rewrite getitem_spec. split.
  - intros Hg. apply bind_Ok in Hg as (loc & Hloc & Hg).
    apply bind_Ok in Hg as (item & Hitem & Hg).
    unfold list_get in Hitem.
    destruct (data self !! loc) as [it|] eqn:Hl; [|done].
    injection Hitem as <-. injection Hg as <- <-. by exists loc, it.
  - intros (loc & item & Hloc & Hitem & -> & ->).
    rewrite Hloc. simpl. unfold list_get. by rewrite Hitem.
Qed.

Lemma projected_short ti item : (length (y (projected ti item)) ≤ 1)%nat ∨
  projected ti item = item.
Proof.
  unfold projected.
  destruct ti as [k|]; [|by right]. case_decide; [left|by right].
  simpl. unfold py_slice. rewrite length_take. lia.
Qed.

Lemma projected_idemp ti item :
  projected ti (projected ti item) = projected ti item.
Proof.
  unfold projected. destruct ti as [k|]; [|done].
  destruct (decide (1 < length (y item))%nat) as [Hl|Hl].
  - rewrite decide_False; [done|].
    simpl. unfold py_slice. rewrite length_take. lia.
  - by rewrite decide_False.
Qed.

(** X8. [self[i]] succeeds exactly for [-len(self) <= i < len(self)], and
    fails with [IndexError] otherwise; a negative [i] stands for
    [i + len(self)]. *)
Theorem X8_getitem_bounds self (i : Z) :
  let len := Z.of_nat (__len__ self) in
  (is_Ok (__getitem__ self i) = true ↔ - len ≤ i < len) ∧
  (¬ (- len ≤ i < len) → __getitem__ self i = Raise IndexError) ∧
  (- len ≤ i < 0 → __getitem__ self i = __getitem__ self (i + len)).
Proof.
  intros len. unfold len, __len__. rewrite !getitem_spec. unfold py_index.
  split_and!.
  - repeat case_decide; simpl; try (split; [done|lia]).
    + unfold list_get.
      destruct (lookup_lt_is_Some_2 (data self) (Z.to_nat i) ltac:(lia)) as [it ->].
      simpl. split; [lia|done].
    + unfold list_get.
      destruct (lookup_lt_is_Some_2 (data self)
        (Z.to_nat (i + Z.of_nat (length (data self)))) ltac:(lia)) as [it ->].
      simpl. split; [lia|done].
  - intros Hout. by repeat (case_decide; [lia|]).
  - intros Hneg. rewrite (decide_False (P := 0 ≤ i < _)) by lia.
    rewrite (decide_True (P := - _ ≤ i < 0)) by lia.
    by rewrite (decide_True (P := 0 ≤ i + _ < _)) by lia.
Qed.

(** X9. A call [self[i]] that returns leaves [len(self)] and the selected
    target as they were, and changes no record but the one it returns; of
    that record it changes nothing but [y], which it leaves alone or cuts
    to at most one entry.  With no target selected the dataset is left
    exactly as it was. *)
Theorem X9_getitem_frame self (i : Z) item' self' :
  __getitem__ self i = Ok (item', self') →
  __len__ self' = __len__ self ∧
  target_index self' = target_index self ∧
  (target_index self = None → self' = self) ∧
  ∃ loc item, data self !! loc = Some item ∧ data self' !! loc = Some item' ∧
    (∀ j, j ≠ loc → data self' !! j = data self !! j) ∧
    (pos item', x item', edge_index item', edge_attr item',
     name item', smiles item', idx item') =
    (pos item, x item, edge_index item, edge_attr item,
     name item, smiles item, idx item) ∧
    (y item' = y item ∨ (length (y item') ≤ 1)%nat).
Proof.
  intros Hg. apply getitem_Ok in Hg as (loc & item & Hloc & Hitem & -> & ->).
  unfold __len__. simpl. rewrite length_insert. split_and!; try done.
  - intros Hnone. rewrite Hnone. simpl.
    rewrite (list_insert_id _ _ _ Hitem). by destruct self; simplify_eq/=.
  - exists loc, item. split_and!; try done.
    + apply list_lookup_insert_eq. by eapply lookup_lt_Some.
    + intros j Hj. by apply list_lookup_insert_ne.
    + unfold projected. destruct (target_index self); [case_decide|]; done.
    + destruct (projected_short (target_index self) item) as [? | ->]; auto.
Qed.

(** X10. A second [self[i]] returns what the first returned and changes
    nothing more, whatever the stored target looked like; and two calls at
    [i] and [j] leave the same dataset in either order. *)
Theorem X10_getitem_idempotent_commutes self (i j : Z) a s1 b s2 :
  __getitem__ self i = Ok (a, s1) → __getitem__ s1 j = Ok (b, s2) →
  __getitem__ s1 i = Ok (a, s1) ∧
  ∃ b' s1' a', __getitem__ self j = Ok (b', s1') ∧
               __getitem__ s1' i = Ok (a', s2).
Proof.
  intros Hi Hj.
  apply getitem_Ok in Hi as (li & it_i & Hli & Hit_i & -> & ->).
  apply getitem_Ok in Hj as (lj & it_j & Hlj & Hit_j & -> & ->).
  simpl in *. rewrite length_insert in Hlj.
  set (ti := target_index self) in *.
  pose proof (lookup_lt_Some _ _ _ Hit_i) as Hlti.
  split.
  - apply getitem_Ok. exists li, (projected ti it_i). simpl.
    rewrite length_insert, list_lookup_insert_eq by done.
    split_and!; try done.
    + by rewrite projected_idemp.
    + by rewrite list_insert_insert_eq.
  - destruct (decide (li = lj)) as [<-|Hne].
    + rewrite list_lookup_insert_eq in Hit_j by done. simplify_eq.
      rewrite projected_idemp, list_insert_insert_eq.
      eexists _, _, _. split.
      * apply getitem_Ok. exists li, it_i. by split_and!.
      * apply getitem_Ok. exists li, (projected ti it_i). simpl.
        rewrite length_insert, list_lookup_insert_eq by done.
        split_and!; try done. by rewrite projected_idemp, list_insert_insert_eq.
    + rewrite list_lookup_insert_ne in Hit_j by done.
      eexists _, _, _. split.
      * apply getitem_Ok. exists lj, it_j. by split_and!.
      * apply getitem_Ok. exists li, it_i. simpl.
        rewrite length_insert, list_lookup_insert_ne by done.
        split_and!; try done. by rewrite list_insert_insert_ne.
Qed.
End GetitemExtras.

Lemma X9_getitem_frame_witness :
  ∃ item' self', __getitem__ sample_dataset (-1) = Ok (item', self') ∧
    __len__ self' = __len__ sample_dataset.
Proof.
  destruct (__getitem__ sample_dataset (-1)) as [[item' self']|] eqn:Hg;
    [|discriminate].
  destruct (X9_getitem_frame sample_dataset (-1) item' self' Hg) as (Hlen & _).
  by exists item', self'.
Defined.

Lemma X10_getitem_idempotent_commutes_witness :
  ∃ a s1, __getitem__ sample_dataset 0 = Ok (a, s1) ∧
          __getitem__ s1 0 = Ok (a, s1).
Proof.
  destruct (__getitem__ sample_dataset 0) as [[a s1]|] eqn:Hi; [|discriminate].
  destruct (__getitem__ s1 (-1)) as [[b s2]|] eqn:Hj.
  - destruct (X10_getitem_idempotent_commutes sample_dataset 0 (-1) a s1 b s2 Hi Hj)
      as (Hidem & _).
    by exists a, s1.
  - exfalso. vm_compute in Hi. injection Hi as <- <-. vm_compute in Hj.
    discriminate.
Defined.

Section CalcStats.
Context {F : Type}.
Implicit Types (self : QM9Dataset F) (item : Item F F).

Lemma projected_full (ti : nat) item :
  (1 < length (y item))%nat → (ti < length (y item))%nat →
  ∃ v, y item !! ti = Some v ∧ projected (Some ti) item = set_y item [v].
Proof.
  intros H1 Hti. destruct (lookup_lt_is_Some_2 _ _ Hti) as [v Hv].
  exists v. split; [done|]. unfold projected.
  by rewrite decide_True, (py_slice_one _ _ _ Hv).
Qed.

Lemma calc_stats_ys_loop (ti : nat) (seen rest : list (Item F F)) (fuel : nat) :
  (length rest < fuel)%nat →
  Forall (λ item, (1 < length (y item))%nat ∧ (ti < length (y item))%nat) rest →
  calc_stats_ys fuel {| target_index := Some ti; data := seen ++ rest |}
      (length seen) =
    Some (Ok (concat (y <$> (projected (Some ti) <$> rest)),
              {| target_index := Some ti;
                 data := seen ++ (projected (Some ti) <$> rest) |})).
Proof.
  revert seen fuel. induction rest as [|item rest IH]; intros seen fuel Hfuel Hall.
  - destruct fuel as [|fuel]; [simpl in Hfuel; lia|]. simpl.
    rewrite getitem_spec. simpl. unfold py_index.
    rewrite !app_nil_r.
    rewrite decide_False by lia. by rewrite decide_False by lia.
  - destruct fuel as [|fuel]; [simpl in Hfuel; lia|].
    inversion Hall as [|? ? [H1 Hti] Hall']; subst.
    destruct (projected_full ti item H1 Hti) as (v & Hv & Hproj).
    simpl calc_stats_ys. rewrite getitem_spec. cbn [target_index data].
    unfold py_index.
    rewrite decide_True by (rewrite length_app; simpl; lia).
    rewrite Nat2Z.id. cbn [mbind result_bind]. unfold list_get.
    rewrite lookup_app_r, Nat.sub_diag by lia. cbn [lookup list_lookup].
    cbn [mbind result_bind]. rewrite Hproj. cbn [y np_item set_y].
    rewrite insert_app_r_alt, Nat.sub_diag by lia. cbn [insert list_insert].
    specialize (IH (seen ++ [set_y item [v]]) fuel).
    rewrite length_app, <- app_assoc in IH. simpl in IH.
    rewrite Nat.add_1_r in IH. rewrite IH; [|simpl in Hfuel; lia|done].
    rewrite <- app_assoc, !fmap_cons, Hproj. reflexivity.
Qed.


End CalcStats.



(* --------------------------------------------------------------------- *)
(** *** [top_n_nodes] and [top_n_edges] *)

Lemma Z_ge_transitive : Transitive Z.ge.
Proof. intros a b c. lia. Qed.

Lemma Z_ge_total : Total Z.ge.
Proof. intros a b. lia. Qed.

(** What [torch.topk] returns: the [k] first values of the list sorted
    from the largest on, hence no value left out exceeds one returned. *)
Lemma torch_topk_values_Some (k : Z) (l top : list Z) :
  torch_topk_values k l = Some top →
  0 ≤ k ≤ Z.of_nat (length l) ∧
  length top = Z.to_nat k ∧
  StronglySorted Z.ge top ∧
  ∃ rest, top ++ rest ≡ₚ l ∧ ∀ a b, a ∈ top → b ∈ rest → b ≤ a.
Proof.
  unfold torch_topk_values. case_decide as Hk; [|done]. intros [= <-].
  pose proof (@StronglySorted_merge_sort _ Z.ge _ Z_ge_transitive Z_ge_total l)
    as Hsorted.
  pose proof (merge_sort_Permutation Z.ge l) as Hperm.
  set (sorted := merge_sort Z.ge l) in *.
  rewrite <- (take_drop (Z.to_nat k) sorted) in Hsorted, Hperm.
  split_and!; [lia..| | |].
  - rewrite length_take. apply Permutation_length in Hperm.
    rewrite length_app, length_take, length_drop in Hperm. lia.
  - by apply StronglySorted_app_1_l in Hsorted.
  - exists (drop (Z.to_nat k) sorted). split; [done|].
    intros a b Ha Hb.
    pose proof (StronglySorted_app_1_elem_of _ _ _ a b Hsorted Ha Hb). lia.
Qed.

(** X13. When [top_n_nodes(n)] and [top_n_edges(n)] return, they return
    [n] numbers, largest first, that are the atom counts (the edge
    counts) of [n] of the stored records, and no other stored record has
    a larger count than any of them; they fail exactly when [n] is
    negative or larger than [len(self)]. *)
Theorem X13_top_n_largest_first {F} (self : QM9Dataset F) (n : Z) :
  let atoms := (λ a, Z.of_nat (nrows (pos a))) <$> data self in
  let edges := (λ a, Z.of_nat (length (edge_index a))) <$> data self in
  (top_n_nodes self n = None ↔ ¬ (0 ≤ n ≤ Z.of_nat (__len__ self))) ∧
  (top_n_edges self n = None ↔ ¬ (0 ≤ n ≤ Z.of_nat (__len__ self))) ∧
  (∀ top, top_n_nodes self n = Some top →
     length top = Z.to_nat n ∧ StronglySorted Z.ge top ∧
     ∃ rest, top ++ rest ≡ₚ atoms ∧ ∀ a b, a ∈ top → b ∈ rest → b ≤ a) ∧
  (∀ top, top_n_edges self n = Some top →
     length top = Z.to_nat n ∧ StronglySorted Z.ge top ∧
     ∃ rest, top ++ rest ≡ₚ edges ∧ ∀ a b, a ∈ top → b ∈ rest → b ≤ a).
Proof.
  intros atoms edges. unfold top_n_nodes, top_n_edges, __len__.
  fold atoms. fold edges.
  assert (Hnone : ∀ l : list Z, length l = length (data self) →
    torch_topk_values n l = None ↔ ¬ (0 ≤ n ≤ Z.of_nat (length (data self)))).
  { intros l Hl. unfold torch_topk_values. rewrite Hl.
    case_decide; split; (done || tauto). }
  split_and!.
  - apply Hnone. unfold atoms. by rewrite length_fmap.
  - apply Hnone. unfold edges. by rewrite length_fmap.
  - intros top Htop. by apply torch_topk_values_Some in Htop as (_ & ? & ? & ?).
  - intros top Htop. by apply torch_topk_values_Some in Htop as (_ & ? & ? & ?).
Qed.

(* --------------------------------------------------------------------- *)
(** *** [collate_fn]: when it returns, and where each molecule lies *)

Lemma np_concatenate0_inv {A} (l : list (arr2 A)) (a : arr2 A) :
  np_concatenate0 l = Ok a ↔
  l ≠ [] ∧ Forall (λ b, ncols b = ncols a) l ∧ rows a = concat (rows <$> l) ∧
  (∃ b, head l = Some b ∧ ncols a = ncols b).
Proof.
  destruct l as [|b l]; simpl; [split; [done|by intros [? _]]|].
  destruct (forallb _ l) eqn:Hall.
  - assert (Hl : Forall (λ c, ncols c = ncols b) l).
    { apply Forall_forall. intros c Hc. apply Nat.eqb_eq.
      apply (proj1 (forallb_forall _ l) Hall). by apply list_elem_of_In. }
    split.
    + intros [= <-]. simpl. split_and!; try done; [by constructor|by exists b].
    + intros (_ & _ & Hrows & b' & [= <-] & Hnc). destruct a as [c r].
      simpl in *. by subst.
  - split; [done|]. intros (_ & Hf & _ & b' & [= <-] & Hnc).
    apply not_true_iff_false in Hall. exfalso. apply Hall.
    apply forallb_forall. intros c Hc. apply Nat.eqb_eq.
    inversion Hf as [|? ? Hb Hl]; subst. rewrite Forall_forall in Hl.
    rewrite (Hl c) by (by apply list_elem_of_In). done.
Qed.

Lemma np_stack_inv {A} (l : list (list A)) (a : arr2 A) :
  np_stack l = Ok a ↔
  l ≠ [] ∧ Forall (λ v, length v = ncols a) l ∧ rows a = l.
Proof.
  destruct l as [|v l]; simpl; [split; [done|by intros [? _]]|].
  destruct (forallb _ l) eqn:Hall.
  - assert (Hl : Forall (λ w, length w = length v) l).
    { apply Forall_forall. intros c Hc. apply Nat.eqb_eq.
      apply (proj1 (forallb_forall _ l) Hall). by apply list_elem_of_In. }
    split.
    + intros [= <-]. simpl. split_and!; try done. by constructor.
    + intros (_ & Hf & Hrows). destruct a as [c r]. simpl in *. subst.
      by inversion Hf; subst.
  - split; [done|]. intros (_ & Hf & _).
    apply not_true_iff_false in Hall. exfalso. apply Hall.
    apply forallb_forall. intros c Hc. apply Nat.eqb_eq.
    inversion Hf as [|? ? Hb Hl]; subst. rewrite Forall_forall in Hl.
    rewrite (Hl c) by (by apply list_elem_of_In). done.
Qed.

Lemma atom_counts_length {F S} (batch : list (Item F S)) :
  length (atom_counts batch) = length batch.
Proof. apply length_fmap. Qed.

Lemma result_cases {A} (r : result A) (e : exn) :
  (∀ e', r = Raise e' → e' = e) → is_Ok r = false → r = Raise e.
Proof. destruct r as [a|e']; [done|]. intros He _. by rewrite (He e'). Qed.

Section CollateExtras.
Context {F : Type}.
Implicit Types (st : collate_state F) (batch : list (Item F F)).

(** The shapes [collate_fn] needs to agree. *)
Local Abbreviation uniform batch c1 c2 k c4 :=
  (Forall (λ item : Item F F,
     ncols (pos item) = c1 ∧ ncols (x item) = c2 ∧
     length (y item) = k ∧ ncols (edge_attr item) = c4) batch).

Lemma collate_loop_batch_idx st i batch :
  c_batch_idx (collate_loop st i batch) =
    c_batch_idx st ++
    concat (imap (λ k item, replicate (nrows (x item)) (Z.of_nat (i + k))) batch).
Proof.
  revert st i. induction batch as [|item batch IH]; intros st i; simpl.
  - by rewrite app_nil_r.
  - rewrite IH. simpl. rewrite <- app_assoc, Nat.add_0_r. do 3 f_equal.
    apply imap_ext. intros k it _. simpl. do 2 f_equal. lia.
Qed.

Lemma collate_loop_edge_lists st i batch :
  c_edge_index_batch (collate_loop st i batch) =
    c_edge_index_batch st ++
    imap (λ k item, offset_edges
            (c_cum_nodes st + sum_Z (take k (atom_counts batch)))
            (edge_index item)) batch.
Proof.
  revert st i. induction batch as [|item batch IH]; intros st i; simpl.
  - by rewrite app_nil_r.
  - rewrite IH. simpl. rewrite <- app_assoc. f_equal. simpl. f_equal.
    + unfold sum_Z. simpl. by rewrite Z.add_0_r.
    + apply imap_ext. intros k it _. simpl. f_equal. unfold sum_Z. simpl. lia.
Qed.

(** What a batch is made of, when [collate_fn] returns one. *)
Lemma collate_fn_inv batch b :
  collate_fn batch = Ok b →
  batch ≠ [] ∧
  (∃ c1 c2 k c4, uniform batch c1 c2 k c4) ∧
  rows (b_pos b) = concat (rows ∘ pos <$> batch) ∧
  rows (b_x b) = concat (rows ∘ x <$> batch) ∧
  rows (b_y b) = y <$> batch ∧
  b_batch b = wrap32 <$> concat (imap (λ k item,
                 replicate (nrows (x item)) (Z.of_nat k)) batch) ∧
  b_ptr b = wrap32 <$> cumulative_sums (atom_counts batch) ∧
  b_edge_index b = concat (imap (λ k item, offset_edges
                      (sum_Z (take k (atom_counts batch)))
                      (edge_index item)) batch) ∧
  rows (b_edge_attr b) = concat (rows ∘ edge_attr <$> batch).
Proof.
  unfold collate_fn.
  destruct (collate_loop_arrays collate_init 0 batch) as (Hp & Hx & Hy & Ha & _).
  simpl in Hp, Hx, Hy, Ha. rewrite Hp, Hx, Hy, Ha.
  rewrite collate_loop_batch_idx, collate_loop_ptr, collate_loop_edge_lists.
  simpl c_batch_idx. simpl c_ptr. simpl c_edge_index_batch. simpl c_cum_nodes.
  destruct (np_concatenate0 (pos <$> batch)) as [bp|] eqn:Hbp; simpl; [|done].
  destruct (np_concatenate0 (x <$> batch)) as [bx|] eqn:Hbx; simpl; [|done].
  destruct (np_stack (y <$> batch)) as [by_|] eqn:Hby; simpl; [|done].
  destruct (np_concatenate1 _) as [be|] eqn:Hbe; simpl; [|done].
  destruct (np_concatenate0 (edge_attr <$> batch)) as [ba|] eqn:Hba;
    simpl; [|done].
  intros [= <-]. simpl.
  apply np_concatenate0_inv in Hbp as (Hne & Hfp & Hrp & _).
  apply np_concatenate0_inv in Hbx as (_ & Hfx & Hrx & _).
  apply np_stack_inv in Hby as (_ & Hfy & Hry).
  apply np_concatenate0_inv in Hba as (_ & Hfa & Hra & _).
  assert (Hbne : batch ≠ []) by (by destruct batch).
  split_and!; try done.
  - exists (ncols bp), (ncols bx), (ncols by_), (ncols ba).
    apply Forall_fmap in Hfp, Hfx, Hfy, Hfa.
    rewrite Forall_forall in Hfp, Hfx, Hfy, Hfa.
    apply Forall_forall. intros item Hin.
    split_and!; [by apply Hfp|by apply Hfx|by apply Hfy|by apply Hfa].
  - by rewrite Hrp, <- list_fmap_compose.
  - by rewrite Hrx, <- list_fmap_compose.
  - do 2 f_equal. rewrite atom_counts_length.
    apply list_fmap_ext. intros _ k _. simpl. lia.
  - unfold np_concatenate1 in Hbe.
    assert (Heq : imap (λ k item, offset_edges
                    (0 + sum_Z (take k (atom_counts batch))) (edge_index item))
                  batch =
                  imap (λ k item, offset_edges
                    (sum_Z (take k (atom_counts batch))) (edge_index item))
                  batch).
    { apply imap_ext; intros k it _; simpl; f_equal; lia. }
    rewrite Heq in Hbe. destruct (imap _ batch) as [|e0 es]; by simplify_eq.
  - by rewrite Hra, <- list_fmap_compose.
Qed.

(** X14. [collate_fn] returns a batch exactly when the list is not empty
    and its molecules agree on the column counts of [pos], [x] and
    [edge_attr] and on the length of [y]; in every other case it fails
    with [ValueError]. *)
Theorem X14_collate_succeeds_iff batch :
  (is_Ok (collate_fn batch) = true ↔
   batch ≠ [] ∧ ∃ c1 c2 k c4, uniform batch c1 c2 k c4) ∧
  (is_Ok (collate_fn batch) = false → collate_fn batch = Raise ValueError).
Proof.
  split.
  - split.
    + destruct (collate_fn batch) as [b|] eqn:Hb; [|done]. intros _.
      by apply collate_fn_inv in Hb as (? & ? & _).
    + intros (Hne & c1 & c2 & k & c4 & Hu). unfold collate_fn.
      destruct (collate_loop_arrays collate_init 0 batch)
        as (Hp & Hx & Hy & Ha & _).
      simpl in Hp, Hx, Hy, Ha. rewrite Hp, Hx, Hy, Ha.
      assert (Hne' : ∀ {B} (f : Item F F → B), f <$> batch ≠ []).
      { intros B f. by destruct batch. }
      rewrite (np_concatenate0_Ok (pos <$> batch) c1); [|done|].
      2: { apply Forall_fmap. eapply Forall_impl; [exact Hu|].
           intros it Hit. simpl. apply Hit. }
      simpl. rewrite (np_concatenate0_Ok (x <$> batch) c2); [|done|].
      2: { apply Forall_fmap. eapply Forall_impl; [exact Hu|].
           intros it Hit. simpl. apply Hit. }
      simpl. rewrite (np_stack_Ok (y <$> batch) k); [|done|].
      2: { apply Forall_fmap. eapply Forall_impl; [exact Hu|].
           intros it Hit. simpl. apply Hit. }
      simpl. unfold np_concatenate1.
      destruct (c_edge_index_batch (collate_loop collate_init 0 batch))
        as [|e0 es] eqn:He.
      { pose proof (collate_loop_edge_batches collate_init 0 batch) as Hl.
        rewrite He in Hl. destruct batch; [done|]. simpl in Hl. lia. }
      simpl. rewrite (np_concatenate0_Ok (edge_attr <$> batch) c4); [done|done|].
      apply Forall_fmap. eapply Forall_impl; [exact Hu|].
      intros it Hit. simpl. apply Hit.
  - apply result_cases. intros e. unfold collate_fn.
    assert (Hc : ∀ {A} (l : list (arr2 A)) e',
      np_concatenate0 l = Raise e' → e' = ValueError).
    { intros A l e'. unfold np_concatenate0. destruct l; [by intros [= <-]|].
      destruct (forallb _ _); [done|by intros [= <-]]. }
    destruct (np_concatenate0 (c_pos _)) eqn:H1; simpl; [|intros [= <-]; eauto].
    destruct (np_concatenate0 (c_x _)) eqn:H2; simpl; [|intros [= <-]; eauto].
    destruct (np_stack _) eqn:H3; simpl.
    2: { intros [= <-]. unfold np_stack in H3.
         destruct (c_y _); [by injection H3 as <-|].
         destruct (forallb _ _); [done|by injection H3 as <-]. }
    destruct (np_concatenate1 _) eqn:H4; simpl.
    2: { intros [= <-]. unfold np_concatenate1 in H4.
         destruct (c_edge_index_batch _); [by injection H4 as <-|done]. }
    destruct (np_concatenate0 (c_edge_attr_batch _)) eqn:H5; simpl;
      [done|intros [= <-]; eauto].
Qed.
End CollateExtras.

Lemma concat_length_Z {A} (ls : list (list A)) :
  Z.of_nat (length (concat ls)) = sum_Z ((λ l, Z.of_nat (length l)) <$> ls).
Proof.
  induction ls as [|l ls IH]; [done|]. csimpl. rewrite length_app.
  unfold sum_Z in *. simpl. lia.
Qed.

(** The pieces of a concatenation, cut out again. *)
Lemma concat_slice {A} (ls : list (list A)) (i : nat) (l : list A) :
  ls !! i = Some l →
  py_slice (length (concat (take i ls)))
           (length (concat (take i ls)) + length l) (concat ls) = l.
Proof.
  intros Hl. rewrite <- (take_drop_middle ls i l Hl) at 3.
  rewrite concat_app. simpl. unfold py_slice.
  rewrite drop_app_length.
  replace (length (concat (take i ls)) + length l - length (concat (take i ls)))%nat
    with (length l) by lia.
  by rewrite take_app_length.
Qed.

Lemma concat_take_same_lengths {A B} (ls : list (list A)) (ks : list (list B))
    (i : nat) :
  length <$> ls = length <$> ks →
  length (concat (take i ls)) = length (concat (take i ks)).
Proof.
  intros Hlen.
  assert (Ht : length <$> take i ls = length <$> take i ks)
    by (by rewrite !fmap_take, Hlen).
  clear Hlen. revert Ht. generalize (take i ks). generalize (take i ls).
  induction l as [|a l IH]; intros [|b k] Hl; try done.
  injection Hl as Hab Hl. simpl. rewrite !length_app, Hab. f_equal. by apply IH.
Qed.

Lemma offset_edges_length (c : Z) (e : list (Z * Z)) :
  length (offset_edges c e) = length e.
Proof. apply length_fmap. Qed.

Lemma offset_edges_back (c : Z) (e : list (Z * Z)) :
  offset_edges (- c) (offset_edges c e) = e.
Proof.
  unfold offset_edges. rewrite <- list_fmap_compose.
  rewrite <- (list_fmap_id e) at 2. apply list_fmap_ext.
  intros _ [u v] _. simpl. f_equal; lia.
Qed.

Lemma cumulative_sums_lookup (n : list Z) (i : nat) :
  (i ≤ length n)%nat → cumulative_sums n !! i = Some (sum_Z (take i n)).
Proof.
  intros Hi. unfold cumulative_sums.
  rewrite list_lookup_fmap, lookup_seq_lt by lia. done.
Qed.

Section CollateSlices.
Context {F : Type}.
Implicit Types (batch : list (Item F F)).

Lemma atom_counts_take batch (i : nat) :
  sum_Z (take i (atom_counts batch)) =
  Z.of_nat (length (concat (take i (rows ∘ x <$> batch)))).
Proof.
  rewrite concat_length_Z, <- fmap_take, <- list_fmap_compose.
  unfold atom_counts. by rewrite <- fmap_take.
Qed.

(** X15. In a batch that [collate_fn] returns for fewer than [2 ^ 31]
    atoms, [ptr[i]] and [ptr[i + 1]] delimit molecule [i]: between them,
    the rows of [x] are the atom rows of the molecule and [batch] holds
    [i]; the rows of [pos] are its coordinates when every molecule has as
    many coordinate rows as atom rows. *)
Theorem X15_collate_molecule_slices batch b (i : nat) item :
  collate_fn batch = Ok b → batch !! i = Some item →
  sum_Z (atom_counts batch) < 2 ^ 31 → Z.of_nat (length batch) ≤ 2 ^ 31 →
  ∃ lo hi : nat,
    b_ptr b !! i = Some (Z.of_nat lo) ∧ b_ptr b !! S i = Some (Z.of_nat hi) ∧
    hi = (lo + nrows (x item))%nat ∧
    py_slice lo hi (rows (b_x b)) = rows (x item) ∧
    py_slice lo hi (b_batch b) = replicate (nrows (x item)) (Z.of_nat i) ∧
    (Forall (λ it, nrows (pos it) = nrows (x it)) batch →
     py_slice lo hi (rows (b_pos b)) = rows (pos item)).
Proof.
  intros Hb Hi Hsum HB.
  apply collate_fn_inv in Hb
    as (_ & _ & Hpos & Hx & _ & Hbatch & Hptr & _ & _).
  rewrite cumulative_sums_in_int32 in Hptr
    by (apply atom_counts_nonneg || done).
  pose proof (lookup_lt_Some _ _ _ Hi) as Hlt.
  set (lo := length (concat (take i (rows ∘ x <$> batch)))).
  exists lo, (lo + nrows (x item))%nat.
  assert (Hxi : (rows ∘ x <$> batch) !! i = Some (rows (x item))).
  { by rewrite list_lookup_fmap, Hi. }
  split_and!; try done.
  - rewrite Hptr, cumulative_sums_lookup by (rewrite atom_counts_length; lia).
    by rewrite atom_counts_take.
  - rewrite Hptr, cumulative_sums_lookup by (rewrite atom_counts_length; lia).
    rewrite atom_counts_take, (take_S_r _ _ _ Hxi), concat_app, length_app.
    simpl. rewrite app_nil_r. done.
  - rewrite Hx. apply (concat_slice _ _ _ Hxi).
  - rewrite Hbatch. unfold py_slice. rewrite <- fmap_drop, <- fmap_take.
    set (ls := imap (λ k it, replicate (nrows (x it)) (Z.of_nat k)) batch).
    assert (Hls : ls !! i = Some (replicate (nrows (x item)) (Z.of_nat i))).
    { unfold ls. by rewrite list_lookup_imap, Hi. }
    assert (Hlo : lo = length (concat (take i ls))).
    { apply concat_take_same_lengths. apply list_eq. intros k.
      unfold ls. rewrite !list_lookup_fmap, list_lookup_imap.
      destruct (batch !! k); simpl; [|done]. by rewrite length_replicate. }
    pose proof (concat_slice _ _ _ Hls) as Hslice. unfold py_slice in Hslice.
    rewrite length_replicate, <- Hlo in Hslice.
    rewrite Hslice. rewrite <- (list_fmap_id (replicate _ _)) at 2.
    apply list_fmap_ext. intros k z Hz.
    apply list_elem_of_lookup_2, elem_of_replicate in Hz as [-> _].
    apply wrap32_id. unfold in_int32, id. lia.
  - intros Hrows. rewrite Hpos.
    assert (Hpi : (rows ∘ pos <$> batch) !! i = Some (rows (pos item))).
    { by rewrite list_lookup_fmap, Hi. }
    assert (Hlo : lo = length (concat (take i (rows ∘ pos <$> batch)))).
    { apply concat_take_same_lengths. rewrite <- !list_fmap_compose.
      apply Forall_fmap_ext_1. eapply Forall_impl; [exact Hrows|].
      intros it Hit. simpl. unfold nrows in Hit. by rewrite Hit. }
    rewrite Forall_forall in Hrows.
    rewrite <- (Hrows item) by (by eapply list_elem_of_lookup_2).
    rewrite Hlo. apply (concat_slice _ _ _ Hpi).
Qed.

(** X16. In a batch that [collate_fn] returns, the edges of molecule [i]
    follow those of the molecules before it, shifted by the number of
    their atoms; shifting them back gives the edges of the molecule; the
    rows of [edge_attr] lie at the same positions when every molecule has
    one feature row per edge. *)
Theorem X16_collate_edge_slices batch b (i : nat) item :
  collate_fn batch = Ok b → batch !! i = Some item →
  let lo := sum_Z (take i (atom_counts batch)) in
  let elo := length (concat (edge_index <$> take i batch)) in
  let ehi := (elo + length (edge_index item))%nat in
  py_slice elo ehi (b_edge_index b) = offset_edges lo (edge_index item) ∧
  offset_edges (- lo) (py_slice elo ehi (b_edge_index b)) = edge_index item ∧
  length (b_edge_index b) = length (concat (edge_index <$> batch)) ∧
  (Forall (λ it, nrows (edge_attr it) = length (edge_index it)) batch →
   py_slice elo ehi (rows (b_edge_attr b)) = rows (edge_attr item)).
Proof.
  intros Hb Hi lo elo ehi.
  apply collate_fn_inv in Hb as (_ & _ & _ & _ & _ & _ & _ & He & Ha).
  set (ls := imap (λ k it, offset_edges (sum_Z (take k (atom_counts batch)))
                             (edge_index it)) batch) in *.
  assert (Hls : ls !! i = Some (offset_edges lo (edge_index item))).
  { unfold ls. by rewrite list_lookup_imap, Hi. }
  assert (Hlens : length <$> ls = length <$> (edge_index <$> batch)).
  { apply list_eq. intros k. unfold ls.
    rewrite !list_lookup_fmap, list_lookup_imap.
    destruct (batch !! k); simpl; [|done].
    unfold offset_edges. by rewrite length_fmap. }
  assert (Helo : elo = length (concat (take i ls))).
  { unfold elo. rewrite fmap_take. symmetry.
    by apply concat_take_same_lengths. }
  assert (Hslice : py_slice elo ehi (b_edge_index b) =
                   offset_edges lo (edge_index item)).
  { rewrite He. pose proof (concat_slice _ _ _ Hls) as Hs.
    rewrite offset_edges_length, <- Helo in Hs. exact Hs. }
  split_and!.
  - exact Hslice.
  - rewrite Hslice. apply offset_edges_back.
  - rewrite He. rewrite <- (firstn_all ls), <- (firstn_all (edge_index <$> batch)).
    unfold ls at 1. rewrite length_imap, length_fmap.
    by apply concat_take_same_lengths.
  - intros Hrows. rewrite Ha.
    assert (Hai : (rows ∘ edge_attr <$> batch) !! i = Some (rows (edge_attr item))).
    { by rewrite list_lookup_fmap, Hi. }
    assert (Helo' : elo = length (concat (take i (rows ∘ edge_attr <$> batch)))).
    { unfold elo. rewrite fmap_take. apply concat_take_same_lengths.
      rewrite <- !list_fmap_compose. symmetry.
      apply Forall_fmap_ext_1. eapply Forall_impl; [exact Hrows|].
      intros it Hit. simpl. unfold nrows in Hit. by rewrite Hit. }
    rewrite Forall_forall in Hrows. unfold ehi.
    rewrite <- (Hrows item) by (by eapply list_elem_of_lookup_2).
    rewrite Helo'. apply (concat_slice _ _ _ Hai).
Qed.
End CollateSlices.

Lemma X15_collate_molecule_slices_witness :
  ∃ lo hi : nat,
    b_ptr sample_collated !! 1%nat = Some (Z.of_nat lo) ∧
    b_ptr sample_collated !! 2%nat = Some (Z.of_nat hi) ∧
    py_slice lo hi (b_batch sample_collated) = replicate 3 1.
Proof.
  destruct (X15_collate_molecule_slices sample_batch sample_collated 1
              (Item_float32 sample_item))
    as (lo & hi & H1 & H2 & _ & _ & H3 & _).
  - vm_compute. reflexivity.
  - reflexivity.
  - reflexivity.
  - simpl. lia.
  - exists lo, hi. split; [exact H1|]. split; [exact H2|exact H3].
Defined.

Lemma X16_collate_edge_slices_witness :
  py_slice 4 8 (b_edge_index sample_collated) =
    offset_edges 3 (edge_index sample_item) ∧
  offset_edges (- 3) (py_slice 4 8 (b_edge_index sample_collated)) =
    edge_index sample_item.
Proof.
  destruct (X16_collate_edge_slices sample_batch sample_collated 1
              (Item_float32 sample_item))
    as (H1 & H2 & _).
  - vm_compute. reflexivity.
  - reflexivity.
  - split; [exact H1|exact H2].
Defined.

(* --------------------------------------------------------------------- *)
(** *** [_qm9_transform]: outcome and shapes *)

(** Just above the reserved size, with [0.8 * m] not an integer, the pad
    width is [int] of a value in [(-1, 0)], that is 0. *)
Lemma int_pad_window (m : Z) :
  0 ≤ m → (4 * m) `mod` 5 ≠ 0 → int_pad m (reserved_size m + 1) = 0.
Proof.
  unfold reserved_size, int_pad. intros Hm Hr.
  Z.to_euclidean_division_equations. lia.
Qed.

Section TransformExtras.
Context {F : Type} `{Float32 F}.

(** X17. For capacities that are not negative, every batch within
    capacity that [_qm9_transform] pads comes out with the same shape:
    [int(0.8 * max_batch_nodes) + 1] rows in [x] (and in [pos] and
    [graph_index] when they have one entry per atom) and
    [int(0.8 * max_batch_edges) + 1] edges (and rows of [edge_attr] when
    it has one row per edge); the rows added to [x] and [edge_attr] hold
    zeros only. *)
Theorem X17_static_shape (max_batch_nodes max_batch_edges : Z) (data : Batch F) g :
  0 ≤ max_batch_nodes → 0 ≤ max_batch_edges →
  Z.of_nat (nrows (b_x data)) ≤ reserved_size max_batch_nodes →
  Z.of_nat (length (b_edge_index data)) ≤ reserved_size max_batch_edges →
  _qm9_transform max_batch_nodes max_batch_edges data = Ok g →
  Z.of_nat (nrows (g_x g)) = reserved_size max_batch_nodes ∧
  Z.of_nat (length (g_edge_index g)) = reserved_size max_batch_edges ∧
  (nrows (b_pos data) = nrows (b_x data) →
   Z.of_nat (nrows (g_pos g)) = reserved_size max_batch_nodes) ∧
  (length (b_batch data) = nrows (b_x data) →
   Z.of_nat (length (g_graph_index g)) = reserved_size max_batch_nodes) ∧
  (nrows (b_edge_attr data) = length (b_edge_index data) →
   Z.of_nat (nrows (g_edge_attr g)) = reserved_size max_batch_edges) ∧
  (∀ j row, (nrows (b_x data) ≤ j)%nat → rows (g_x g) !! j = Some row →
     row = replicate (ncols (b_x data)) f0) ∧
  (∀ j row, (nrows (b_edge_attr data) ≤ j)%nat →
     rows (g_edge_attr g) !! j = Some row →
     row = replicate (ncols (b_edge_attr data)) f0).
Proof.
  intros Hmn Hme Hn He Hg.
  pose proof (int_pad_fills _ _ Hmn Hn) as Hfn.
  pose proof (int_pad_fills _ _ Hme He) as Hfe.
  apply qm9_transform_inv in Hg
    as (Hpn & Hpe & m & gi & _ & _ & Hpos & Hx & Hei & Hea & Hgi & _).
  unfold nrows in *. rewrite Hx, Hei, Hpos, Hgi, Hea.
  rewrite !length_app, !length_replicate, as_int32_length, length_fmap.
  split_and!; try lia.
  - intros j row Hj Hrow. rewrite lookup_app_r in Hrow by done.
    by apply lookup_replicate in Hrow as [-> _].
  - intros j row Hj Hrow. rewrite lookup_app_r in Hrow by done.
    by apply lookup_replicate in Hrow as [-> _].
Qed.

(** X18. [_qm9_transform] returns a padded graph exactly when both pad
    widths are non-negative and the batch has an edge and an atom.  It
    fails with [ValueError] when a pad width is negative or the batch has
    no edge, and with [IndexError] in the one remaining case, a batch
    with edges whose [batch] vector is empty. *)
Theorem X18_transform_outcome (max_batch_nodes max_batch_edges : Z) (data : Batch F) :
  let n_node_pad := int_pad max_batch_nodes (Z.of_nat (nrows (b_x data))) in
  let n_edge_pad :=
    int_pad max_batch_edges (Z.of_nat (length (b_edge_index data))) in
  let r := _qm9_transform max_batch_nodes max_batch_edges data in
  (is_Ok r = true ↔
   0 ≤ n_node_pad ∧ 0 ≤ n_edge_pad ∧ b_edge_index data ≠ [] ∧ b_batch data ≠ []) ∧
  (r = Raise ValueError ↔
   n_node_pad < 0 ∨ n_edge_pad < 0 ∨ b_edge_index data = []) ∧
  (r = Raise IndexError ↔
   0 ≤ n_node_pad ∧ 0 ≤ n_edge_pad ∧ b_edge_index data ≠ [] ∧ b_batch data = []) ∧
  r ≠ Raise KeyError.
Proof.
  intros n_node_pad n_edge_pad r. unfold r, _qm9_transform.
  rewrite as_int32_length. fold n_node_pad. fold n_edge_pad.
  unfold jnp_pad_rows, jnp_pad_cols.
  destruct (decide (n_node_pad < 0)) as [Hn|Hn]; simpl.
  { split_and!; try done; split; try done; (lia || tauto). }
  destruct (b_edge_index data) as [|e0 es] eqn:Hes; simpl.
  { split_and!; try done; split; try done; (lia || tauto || by intros (_ & _ & ? & _)). }
  destruct (decide (n_edge_pad < 0)) as [He|He]; simpl.
  { split_and!; try done; split; try done; (lia || tauto). }
  unfold jnp_last. rewrite fmap_last.
  destruct (b_batch data) as [|g0 gs] eqn:Hgs; simpl.
  { split_and!; try done; split; try done; try (intros (_ & _ & _ & ?); done).
    - intros [?|[?|?]]; (lia || done).
    - intros _. split_and!; (lia || done). }
  destruct (last (g0 :: gs)) as [gl|] eqn:Hl; [|by apply last_None in Hl].
  simpl.
  split_and!; try done; split; try done; try (intros (_ & _ & _ & ?); done).
  - intros _. split_and!; (lia || done).
  - intros [?|[?|?]]; (lia || done).
Qed.

End TransformExtras.

Lemma X17_static_shape_witness :
  ∃ g, _qm9_transform 10 20 sample_collated = Ok g ∧
    Z.of_nat (nrows (g_x g)) = 9 ∧ Z.of_nat (length (g_edge_index g)) = 17.
Proof.
  assert (is_Ok (_qm9_transform 10 20 sample_collated) = true) as Hok
    by reflexivity.
  destruct (_qm9_transform 10 20 sample_collated) as [g|] eqn:Hg; [|discriminate].
  destruct (X17_static_shape 10 20 sample_collated g) as (H1 & H2 & _).
  - lia.
  - lia.
  - by compute.
  - by compute.
  - exact Hg.
  - exists g. split; [reflexivity|]. split; [exact H1|exact H2].
Defined.


Lemma elem_of_concat {A} (a : A) (ls : list (list A)) :
  a ∈ concat ls → ∃ l, a ∈ l ∧ l ∈ ls.
Proof.
  induction ls as [|l ls IH]; simpl; [by intros ?%elem_of_nil|].
  intros [Ha|Ha]%elem_of_app.
  - exists l. split; [done|left].
  - destruct (IH Ha) as (l' & ? & ?). exists l'. split; [done|by right].
Qed.

Section CollateThenTransform.
Context {F : Type} `{Float32 F}.

Lemma batch_idx_entries (batch : list (Item F F)) (z : Z) :
  z ∈ concat (imap (λ k item, replicate (nrows (x item)) (Z.of_nat k)) batch) →
  0 ≤ z < Z.of_nat (length batch).
Proof.
  intros Hz. apply elem_of_concat in Hz as (l & Hz & Hl).
  apply list_elem_of_lookup in Hl as [k Hk].
  rewrite list_lookup_imap in Hk.
  destruct (batch !! k) as [item|] eqn:Hitem; [|done]. simpl in Hk.
  injection Hk as <-. apply elem_of_replicate in Hz as [-> _].
  apply lookup_lt_Some in Hitem. lia.
Qed.

Lemma batch_idx_last (init : list (Item F F)) (item : Item F F) :
  (0 < nrows (x item))%nat →
  last (concat (imap (λ k item, replicate (nrows (x item)) (Z.of_nat k))
                  (init ++ [item]))) = Some (Z.of_nat (length init)).
Proof.
  intros Hn. rewrite imap_app, concat_app. simpl.
  rewrite app_nil_r, Nat.add_0_r.
  destruct (nrows (x item)) as [|n]; [lia|].
  rewrite replicate_S_end, app_assoc. apply last_snoc.
Qed.

(** X20. When a batch built by [collate_fn] from fewer than [2 ^ 31]
    molecules, the last of which has an atom, is padded, [graph_index] is
    the [batch] vector of the batch, whose entries are the ordinals
    [0 .. B-1] of the molecules, followed by one entry [B] per padding
    row: the padding forms one more graph, numbered after the real
    ones. *)
Theorem X20_ghost_graph_ordinal (batch : list (Item F F)) (b : Batch F)
    (max_batch_nodes max_batch_edges : Z) g :
  collate_fn batch = Ok b →
  _qm9_transform max_batch_nodes max_batch_edges b = Ok g →
  Z.of_nat (length batch) < 2 ^ 31 →
  (∃ item, last batch = Some item ∧ (0 < nrows (x item))%nat) →
  g_graph_index g =
    b_batch b ++
    replicate (Z.to_nat (int_pad max_batch_nodes (Z.of_nat (nrows (b_x b)))))
      (Z.of_nat (length batch)) ∧
  ∀ z, z ∈ b_batch b → 0 ≤ z < Z.of_nat (length batch).
Proof.
  intros Hb Hg HB (item & Hlast & Hn).
  apply collate_fn_inv in Hb as (_ & _ & _ & _ & _ & Hbatch & _).
  set (idxs := concat (imap (λ k item, replicate (nrows (x item)) (Z.of_nat k))
                         batch)) in *.
  assert (Hrange : ∀ z, z ∈ idxs → 0 ≤ z < Z.of_nat (length batch))
    by apply batch_idx_entries.
  assert (Hid : wrap32 <$> idxs = idxs).
  { rewrite <- (list_fmap_id idxs) at 2. apply list_fmap_ext.
    intros k z Hz. apply list_elem_of_lookup_2 in Hz.
    specialize (Hrange z Hz). apply wrap32_id. unfold in_int32, id. lia. }
  rewrite Hid in Hbatch.
  apply qm9_transform_inv in Hg
    as (_ & _ & m & gi & _ & Hgi & _ & _ & _ & _ & Hgraph & _).
  rewrite Hbatch, Hid in Hgi, Hgraph. rewrite Hbatch.
  split; [|done].
  apply last_Some in Hlast as [init ->].
  unfold jnp_last, idxs in Hgi. rewrite (batch_idx_last init item Hn) in Hgi.
  injection Hgi as <-. rewrite Hgraph. do 2 f_equal.
  rewrite length_app in *. simpl in *.
  rewrite wrap32_id; [lia|]. unfold in_int32. lia.
Qed.
End CollateThenTransform.

Lemma X20_ghost_graph_ordinal_witness :
  ∃ g, _qm9_transform 10 20 sample_collated = Ok g ∧
    g_graph_index g = b_batch sample_collated ++ replicate 3 2.
Proof.
  assert (is_Ok (_qm9_transform 10 20 sample_collated) = true) as Hok
    by reflexivity.
  destruct (_qm9_transform 10 20 sample_collated) as [g|] eqn:Hg; [|discriminate].
  destruct (X20_ghost_graph_ordinal sample_batch sample_collated 10 20 g)
    as (H1 & _).
  - vm_compute. reflexivity.
  - exact Hg.
  - simpl. lia.
  - exists (Item_float32 sample_item). split; [reflexivity|].
    unfold nrows. simpl. lia.
  - exists g. split; [reflexivity|exact H1].
Defined.

(* --------------------------------------------------------------------- *)
(** *** [read_uncharacterized_indices] *)

Lemma str_split_no_sep (c : Ascii.ascii) (s : string) :
  has_char c s = false → str_split c s = [s].
Proof.
  induction s as [|a s IH]; simpl; [done|].
  intros [Ha Hs]%orb_false_elim. apply bool_decide_eq_false in Ha.
  rewrite decide_False by done. by rewrite (IH Hs).
Qed.

Lemma str_split_app (c : Ascii.ascii) (s t : string) :
  has_char c s = false →
  str_split c (s ++ String c t) = s :: str_split c t.
Proof.
  induction s as [|a s IH]; simpl.
  - intros _. by rewrite decide_True.
  - intros [Ha Hs]%orb_false_elim. apply bool_decide_eq_false in Ha.
    rewrite decide_False by done. by rewrite (IH Hs).
Qed.

(** Splitting at the line feeds undoes the joining of lines that hold
    none. *)
Lemma str_split_join_lines (lines : list string) :
  lines ≠ [] → Forall (λ l, has_char newline l = false) lines →
  str_split newline (join_lines lines) = lines.
Proof.
  intros Hne Hall. induction Hall as [|l lines Hl Hall IH]; [done|].
  destruct lines as [|l' lines]; simpl.
  - by apply str_split_no_sep.
  - rewrite str_split_app by done. f_equal. by apply IH.
Qed.

Lemma slice_9_minus_2_middle {A} (header body footer : list A) :
  length header = 9%nat → length footer = 2%nat →
  slice_9_minus_2 (header ++ body ++ footer) = body.
Proof.
  intros Hh Hf. unfold slice_9_minus_2, py_slice.
  rewrite <- Hh, drop_app_length, !length_app, Hf.
  replace (length header + (length body + 2) - 2 - length header)%nat
    with (length body) by lia.
  apply take_app_length.
Qed.

Lemma slice_9_minus_2_short {A} (l : list A) :
  (length l ≤ 11)%nat → slice_9_minus_2 l = [].
Proof.
  intros Hl. unfold slice_9_minus_2, py_slice.
  replace (length l - 2 - 9)%nat with 0%nat by lia. done.
Qed.

Section UncharacterizedExtras.
Variable str_split_whitespace : string → list string.
Variable py_int : string → result Z.

Local Abbreviation read := (read_uncharacterized_indices str_split_whitespace py_int).
Local Abbreviation index_of := (uncharacterized_index str_split_whitespace py_int).

(** X21. Of the text of [uncharacterized.txt], cut at the line feeds, the
    first nine pieces and the last two are never parsed: the outcome is
    that of parsing the pieces between them, and every index returned is
    the number at the start of one of these pieces, minus one. *)
Theorem X21_uncharacterized_header_footer (header body footer : list string) :
  length header = 9%nat → length footer = 2%nat →
  Forall (λ l, has_char newline l = false) (header ++ body ++ footer) →
  read (join_lines (header ++ body ++ footer)) =
    (skip ← mapM index_of body; Ok (list_to_set skip)) ∧
  ∀ s, read (join_lines (header ++ body ++ footer)) = Ok s →
    ∀ z, z ∈ s ↔ ∃ x token n, x ∈ body ∧
      head (str_split_whitespace x) = Some token ∧ py_int token = Ok n ∧
      z = n - 1.
Proof.
  intros Hh Hf Hall.
  assert (Hread : read (join_lines (header ++ body ++ footer)) =
                  (skip ← mapM index_of body; Ok (list_to_set skip))).
  { unfold read_uncharacterized_indices.
    rewrite str_split_join_lines; [|by destruct header|done].
    by rewrite slice_9_minus_2_middle. }
  split; [done|]. intros s Hs. rewrite Hread in Hs.
  apply bind_Ok in Hs as (skip & Hskip & [= <-]).
  apply mapM_result_Forall2 in Hskip. intros z.
  rewrite elem_of_list_to_set. split.
  - intros Hz. apply list_elem_of_lookup in Hz as [k Hk].
    destruct (Forall2_lookup_r _ _ _ _ _ Hskip Hk) as (x & Hx & Hxz).
    unfold uncharacterized_index, list_get in Hxz.
    rewrite <- head_lookup in Hxz.
    destruct (head (str_split_whitespace x)) as [token|] eqn:Htok;
      simpl in Hxz; [|done].
    destruct (py_int token) as [n|] eqn:Hn; simpl in Hxz; [|done].
    injection Hxz as <-. exists x, token, n.
    split_and!; try done. by eapply list_elem_of_lookup_2.
  - intros (x & token & n & Hx & Htok & Hn & ->).
    apply list_elem_of_lookup in Hx as [k Hk].
    destruct (Forall2_lookup_l _ _ _ _ _ Hskip Hk) as (z & Hz & Hxz).
    unfold uncharacterized_index, list_get in Hxz.
    rewrite <- head_lookup, Htok in Hxz. simpl in Hxz.
    rewrite Hn in Hxz. injection Hxz as <-.
    by eapply list_elem_of_lookup_2.
Qed.

(** X22. A text of at most eleven lines yields the empty set, whatever
    the lines hold: nothing of it is parsed. *)
Theorem X22_uncharacterized_short_text (lines : list string) :
  lines ≠ [] → (length lines ≤ 11)%nat →
  Forall (λ l, has_char newline l = false) lines →
  read (join_lines lines) = Ok ∅.
Proof.
  intros Hne Hlen Hall. unfold read_uncharacterized_indices.
  rewrite str_split_join_lines by done.
  by rewrite slice_9_minus_2_short.
Qed.
End UncharacterizedExtras.

Lemma X21_uncharacterized_header_footer_witness :
  read_uncharacterized_indices (λ x, [x]) (λ _, Ok 7)
    (join_lines (replicate 9 "h" ++ ["7"] ++ ["end"; ""]))%string =
  Ok {[ 6 ]}.
Proof.
  destruct (X21_uncharacterized_header_footer (λ x, [x]) (λ _, Ok 7)
    (replicate 9 "h"%string) ["7"%string] ["end"%string; ""%string])
    as (Hr & _).
  - reflexivity.
  - reflexivity.
  - repeat constructor.
  - rewrite Hr. simpl. f_equal; apply union_empty_r_L.
Defined.

Lemma X22_uncharacterized_short_text_witness :
  read_uncharacterized_indices (λ x, [x]) (λ _, Raise ValueError)
    (join_lines ["not"; "a"; "number"; ""])%string = Ok ∅.
Proof.
  apply X22_uncharacterized_short_text.
  - discriminate.
  - simpl. lia.
  - repeat constructor.
Defined.

(* --------------------------------------------------------------------- *)
(** *** [__init__] *)

Lemma list_index_Raise (l : list string) (s : string) (e : exn) :
  list_index l s = Raise e ↔ (s ∉ l) ∧ e = ValueError.
Proof.
  induction l as [|t l IH]; simpl.
  - split; [intros [= <-]; split; [apply not_elem_of_nil|done]|].
    by intros [_ ->].
  - destruct (decide (t = s)) as [->|Hne].
    + split; [done|]. intros [Hs _]. destruct Hs. by left.
    + rewrite not_elem_of_cons.
      destruct (list_index l s) as [n|e'] eqn:Hl; simpl.
      * split; [done|]. intros [[_ Hs] He].
        assert (Hc : Ok n = Raise e) by (by apply IH). done.
      * rewrite IH. split.
        -- intros [Hs He]. split_and!; [congruence|done..].
        -- by intros [[_ Hs] He].
Qed.

Section InitExtras.
Context {F : Type} `{Float32 F}.
Variable permutation : Z → list nat → list nat.

(** A converted row of the label table has 19 entries. *)
Lemma targets_row_length (row t : list F) :
  targets_row row = Ok t → length t = 19%nat.
Proof.
  unfold targets_row, np_mul_row. rewrite conversion_factors_length.
  destruct (decide (length (rearrange_row row) = 19%nat)) as [Hl|_].
  - intros [= <-]. rewrite length_zip_with, conversion_factors_length. lia.
  - destruct (rearrange_row row) as [|a [|b l]]; simpl; [done| |done].
    by intros [= <-].
Qed.

Lemma apply_split_elem {A} (split : string) (data d' : list A) (a : A) :
  apply_split permutation split data = Ok d' → a ∈ d' → a ∈ data.
Proof.
  unfold apply_split, split_blocks.
  destruct (decide (split = "train"%string)) as [_|_]; [apply np_take_elem|].
  destruct (decide (split = "val"%string)) as [_|_]; [apply np_take_elem|].
  destruct (decide (split = "test"%string)) as [_|_]; [apply np_take_elem|].
  done.
Qed.

Lemma init_inv cache raw skip suppl target split cache' self :
  __init__ permutation cache raw skip suppl target split = (cache', Ok self) →
  ∃ ti d, init_target_index target = Ok ti ∧ cache' = Some d ∧
    match cache with Some c => c = d | None => process raw skip suppl = Ok d end ∧
    target_index self = ti ∧
    ∀ item, item ∈ data self → ∃ it, it ∈ d ∧ item = Item_float32 it.
Proof.
  unfold __init__. destruct (init_target_index target) as [ti|]; [|done].
  intros Hinit. exists ti.
  assert (∃ d, match cache with
               | Some c => c = d
               | None => process raw skip suppl = Ok d
               end ∧
            (Some d,
             d' ← match split with
                  | None | Some EmptyString => Ok d
                  | Some s => apply_split permutation s d
                  end;
             Ok {| target_index := ti; data := dataset_to_pytorch d' |}) =
            (cache', Ok self)) as (d & Hd & Heq).
  { destruct cache as [c|]; simpl in Hinit; [by exists c|].
    destruct (process raw skip suppl) as [d|]; [by exists d|done]. }
  exists d. injection Heq as <- Hself.
  apply bind_Ok in Hself as (d' & Hd' & [= <-]).
  split_and!; try done. simpl. intros item Hin.
  apply list_elem_of_fmap in Hin as (it & -> & Hin). exists it.
  split; [|done].
  destruct split as [[|c s]|]; [by injection Hd' as -> | | by injection Hd' as ->].
  by eapply apply_split_elem.
Qed.

(** X23. A target name that [TARGETS] does not hold makes the
    constructor fail with [ValueError] before the cache is read and
    before anything is processed: the cache file is left as it was,
    whatever the other arguments are. *)
Theorem X23_init_unknown_target cache raw skip suppl (t : string) split :
  t ∉ TARGETS →
  __init__ permutation cache raw skip suppl (Some t) split =
    (cache, Raise ValueError).
Proof.
  intros Ht. unfold __init__, init_target_index.
  assert (list_index TARGETS t = Raise ValueError) as ->
    by (by apply list_index_Raise).
  reflexivity.
Qed.

(** X24. The cache that a first construction writes is the whole corpus
    of [process], before any split; a second construction from this cache
    with the same target and split has the same outcome whatever raw
    files it is given, and no construction changes an existing cache. *)
Theorem X24_init_cache_reused raw skip suppl target split d r :
  __init__ permutation None raw skip suppl target split = (Some d, r) →
  process raw skip suppl = Ok d ∧
  (∀ raw' skip' suppl',
     __init__ permutation (Some d) raw' skip' suppl' target split = (Some d, r)) ∧
  (∀ c raw' skip' suppl' target' split',
     (__init__ permutation (Some c) raw' skip' suppl' target' split').1 = Some c).
Proof.
  intros Hinit. split_and!.
  - unfold __init__ in Hinit.
    destruct (init_target_index target) as [ti|]; [|done].
    destruct (process raw skip suppl) as [d0|]; [|done].
    by injection Hinit as -> _.
  - intros raw' skip' suppl'. unfold __init__ in *.
    destruct (init_target_index target) as [ti|]; [|done].
    destruct (process raw skip suppl) as [d0|]; [|done].
    by injection Hinit as -> <-.
  - intros c raw' skip' suppl' target' split'. unfold __init__.
    by destruct (init_target_index target').
Qed.

(** X25. A split that is neither empty nor one of [train], [val] and
    [test] makes the constructor fail with [ValueError], but only after
    the corpus has been processed and written to the cache. *)
Theorem X25_init_unknown_split raw skip suppl target (s : string) d :
  is_Ok (init_target_index target) = true →
  process raw skip suppl = Ok d →
  s ≠ ""%string → s ≠ "train"%string → s ≠ "val"%string → s ≠ "test"%string →
  __init__ permutation None raw skip suppl target (Some s) =
    (Some d, Raise ValueError).
Proof.
  intros Ht Hp Hs H1 H2 H3. unfold __init__.
  destruct (init_target_index target) as [ti|]; [|done].
  rewrite Hp. destruct s as [|c s]; [done|].
  by rewrite (apply_split_other permutation (String c s) d H1 H2 H3).
Qed.

(** The shape of a record of the corpus after [dataset_to_pytorch]. *)
Lemma corpus_record_shape raw skip suppl d it :
  (∀ mol, Some mol ∈ suppl → bonds_in_range mol) →
  process raw skip suppl = Ok d → it ∈ d →
  MoleculeGraph (Item_float32 it) ∧ length (y it) = 19%nat ∧
  nrows (pos it) = nrows (x it) ∧
  nrows (edge_attr it) = length (edge_index it) ∧
  edge_index it ≠ [] ∧
  ∃ mol, suppl !! idx it = Some (Some mol) ∧
    nrows (x it) = length (GetAtoms mol) ∧
    length (edge_index it) = (2 * length (GetBonds mol))%nat.
Proof.
  intros Hbonds Hp Hit.
  destruct (process_elem_mol _ _ _ _ _ Hp Hit) as (targets & mol & Ht & Hl & Hm).
  destruct (process_mol_inv _ _ _ _ Hm) as (_ & Hy & Hs).
  destruct (process_mol_fields _ _ _ _ Hm) as (Hpos & _ & Hx & _).
  apply sort_edges_inv in Hs as (Hne & He & Ha).
  apply mapM_result_length in Hx, He, Ha.
  assert (Hlex : length (edge_index it) = (2 * length (GetBonds mol))%nat).
  { by rewrite He, lexsort_Permutation, length_seq, length_fmap,
      edge_indices_length. }
  split_and!.
  - eapply process_mol_MoleculeGraph; [done|].
    apply Hbonds. by eapply list_elem_of_lookup_2.
  - unfold process_targets in Ht. apply mapM_result_Forall2 in Ht.
    unfold list_get in Hy. destruct (targets !! idx it) as [t|] eqn:Hti; [|done].
    injection Hy as <-.
    destruct (Forall2_lookup_r _ _ _ _ _ Ht Hti) as (row & _ & Hrow).
    by eapply targets_row_length.
  - unfold nrows. rewrite Hpos. simpl. by rewrite ?length_fmap, ?length_map, Hx.
  - unfold nrows. by rewrite Ha, He.
  - intros Hnil. rewrite Hnil in Hlex. simpl in Hlex.
    destruct (GetBonds mol); [|simpl in Hlex; lia].
    by apply Hne.
  - exists mol. by split_and!.
Qed.

Lemma nrows_astype_float32 (a : arr2 bool) :
  nrows (astype_float32 (F:=F) a) = nrows a.
Proof. unfold nrows. simpl. by rewrite length_map. Qed.

Lemma MoleculeGraph_projected {S} (ti : option nat) (item : Item F S) :
  MoleculeGraph item → MoleculeGraph (projected ti item).
Proof.
  unfold projected. destruct ti as [k|]; [|done].
  by destruct (decide (1 < length (y item))%nat).
Qed.

Lemma projected_length {S} (target : option string) ti (item : Item F S) :
  init_target_index target = Ok ti → length (y item) = 19%nat →
  length (y (projected ti item)) = match ti with Some _ => 1%nat | None => 19%nat end.
Proof.
  intros Hti Hy. unfold projected. destruct ti as [k|]; [|done].
  rewrite decide_True by lia. simpl.
  destruct target as [t|]; [|done]. unfold init_target_index in Hti.
  destruct (list_index TARGETS t) as [n|] eqn:Hn; [|done].
  injection Hti as ->. apply list_index_Ok, lookup_lt_Some in Hn.
  unfold py_slice. rewrite length_take, length_drop, Hy.
  change (length TARGETS) with 19%nat in Hn. lia.
Qed.

(** X26. Every record of a dataset constructed from the raw files, with
    or without a split, is a molecule graph with 19 targets, one
    coordinate row per atom row, one attribute row per edge and at least
    one edge; it stems from a parsable record of the stream and has its
    number of atoms and twice its number of bonds (for records whose
    bonds join atoms of the record, as RDKit yields them). *)
Theorem X26_init_dataset_records raw skip suppl target split cache self :
  (∀ mol, Some mol ∈ suppl → bonds_in_range mol) →
  __init__ permutation None raw skip suppl target split = (cache, Ok self) →
  ∀ item, item ∈ data self →
    MoleculeGraph item ∧ length (y item) = 19%nat ∧
    nrows (pos item) = nrows (x item) ∧
    nrows (edge_attr item) = length (edge_index item) ∧
    edge_index item ≠ [] ∧
    ∃ mol, suppl !! idx item = Some (Some mol) ∧
      nrows (x item) = length (GetAtoms mol) ∧
      length (edge_index item) = (2 * length (GetBonds mol))%nat.
Proof.
  intros Hbonds Hinit item Hin.
  apply init_inv in Hinit as (ti & d & _ & _ & Hp & _ & Hdata).
  destruct (Hdata item Hin) as (it & Hit & ->).
  destruct (corpus_record_shape _ _ _ _ _ Hbonds Hp Hit)
    as (Hg & Hy & Hpx & Hae & Hne & mol & Hl & Hat & Hbo).
  simpl. rewrite !nrows_astype_float32. split_and!; try done.
  by exists mol.
Qed.

(** X27. Records of a dataset constructed from the raw files can always
    be batched: any non-empty selection of them, each as [__getitem__]
    returns it, is accepted by [collate_fn], and [y] of the batch has one
    row per record, of one column when a target is selected and of 19
    when none is. *)
Theorem X27_init_getitem_collate raw skip suppl target split cache self
    (items : list (Item F F)) :
  (∀ mol, Some mol ∈ suppl → bonds_in_range mol) →
  __init__ permutation None raw skip suppl target split = (cache, Ok self) →
  items ≠ [] → (∀ item, item ∈ items → item ∈ data self) →
  ∃ b, collate_fn (projected (target_index self) <$> items) = Ok b ∧
    ncols (b_y b) = match target_index self with Some _ => 1%nat | None => 19%nat end ∧
    rows (b_y b) = (λ item, y (projected (target_index self) item)) <$> items ∧
    length (b_ptr b) = S (length items).
Proof.
  intros Hbonds Hinit Hne Hsub.
  apply init_inv in Hinit as (ti & d & Hti & _ & Hp & <- & Hdata).
  set (ti := target_index self) in *.
  assert (Hshape : ∀ item, item ∈ items →
            MoleculeGraph item ∧ length (y item) = 19%nat).
  { intros item Hin. destruct (Hdata item (Hsub item Hin)) as (it & Hit & ->).
    destruct (corpus_record_shape _ _ _ _ _ Hbonds Hp Hit) as (Hg & Hy & _).
    by split. }
  destruct (collate_fn_Ok (projected ti <$> items) (match ti with Some _ => 1%nat | None => 19%nat end))
    as (b & Hb & Hptr & _ & _ & _ & Hby).
  - by destruct items.
  - apply Forall_fmap, Forall_forall. intros item Hin. simpl.
    apply MoleculeGraph_projected. by apply Hshape.
  - apply Forall_fmap, Forall_forall. intros item Hin. simpl.
    eapply projected_length; [done|]. by apply Hshape.
  - exists b. rewrite Hby. simpl. split_and!; try done.
    + by rewrite <- list_fmap_compose.
    + rewrite Hptr, length_fmap, collate_loop_ptr. simpl.
      by rewrite !length_fmap, length_seq.
Qed.
End InitExtras.

Lemma X23_init_unknown_target_witness :
  __init__ (F:=Q) (λ _ l, l) (Some [sample_item]) [] ∅ [] (Some "energy"%string)
    (Some "train"%string) = (Some [sample_item], Raise ValueError).
Proof.
  apply X23_init_unknown_target.
  apply (bool_decide_unpack _). vm_compute. reflexivity.
Defined.

Lemma X24_init_cache_reused_witness :
  process [sample_row] ∅ [Some sample_mol] = Ok [sample_item] ∧
  __init__ (λ _ l, l) (Some [sample_item]) [] ∅ [] (Some "alpha"%string) None =
    (Some [sample_item], Ok sample_dataset).
Proof.
  destruct (X24_init_cache_reused (λ _ l, l) [sample_row] ∅ [Some sample_mol]
              (Some "alpha"%string) None [sample_item] (Ok sample_dataset))
    as (Hp & Hc & _).
  - vm_compute. reflexivity.
  - split; [exact Hp|apply Hc].
Defined.

Lemma X25_init_unknown_split_witness :
  __init__ (λ _ l, l) None [sample_row] ∅ [Some sample_mol] None
    (Some "all"%string) = (Some [sample_item], Raise ValueError).
Proof.
  apply X25_init_unknown_split.
  - reflexivity.
  - vm_compute. reflexivity.
  - discriminate.
  - discriminate.
  - discriminate.
  - discriminate.
Defined.

Lemma X26_init_dataset_records_witness :
  MoleculeGraph (Item_float32 sample_item) ∧
  length (y (Item_float32 sample_item)) = 19%nat.
Proof.
  destruct (X26_init_dataset_records (λ _ l, l) [sample_row] ∅
              [Some sample_mol] (Some "alpha"%string) None
              (Some [sample_item]) sample_dataset) with (item := Item_float32 sample_item)
    as (Hg & Hy & _).
  - intros mol Hin. apply list_elem_of_singleton in Hin. injection Hin as ->.
    intros b Hb. simpl in Hb.
    apply elem_of_cons in Hb as [-> | Hb]; [simpl; lia|].
    apply list_elem_of_singleton in Hb as ->. simpl. lia.
  - vm_compute. reflexivity.
  - left.
  - split; [exact Hg|exact Hy].
Defined.

Lemma X27_init_getitem_collate_witness :
  ∃ b, collate_fn (projected (Some 1%nat) <$> dataset_to_pytorch [sample_item])
         = Ok b ∧ ncols (b_y b) = 1%nat.
Proof.
  destruct (X27_init_getitem_collate (λ _ l, l) [sample_row] ∅
              [Some sample_mol] (Some "alpha"%string) None
              (Some [sample_item]) sample_dataset (data sample_dataset))
    as (b & Hb & Hc & _).
  - intros mol Hin. apply list_elem_of_singleton in Hin. injection Hin as ->.
    intros b Hb. simpl in Hb.
    apply elem_of_cons in Hb as [-> | Hb]; [simpl; lia|].
    apply list_elem_of_singleton in Hb as ->. simpl. lia.
  - vm_compute. reflexivity.
  - discriminate.
  - intros item Hin. exact Hin.
  - exists b. split; [exact Hb|exact Hc].
Defined.
